(** * search-params-utils: typed access to URL query parameters

    A shallow embedding of [src/index.ts] and the properties of its
    extractors and collection transforms.

    Conventions of the model.
    - A string is a sequence of 8-bit code units (the Latin-1 range of the
      runtime's UTF-16 strings).
    - A [number] is the exact decimal value the runtime's binary64 number
      stands for; rounding to binary64 is outside the model, so results
      coincide with the runtime on values that binary64 represents exactly
      and whose shortest decimal text is their exact one (every integer up
      to [Number.MAX_SAFE_INTEGER] in magnitude is such a value).
    - A [URLSearchParams] is a mutable object: it lives in a store and is
      handled through its location.
    - [console.error], exceptions and the store are effects of the monad
      [Eff]. *)

From Stdlib Require Import ZArith NArith Ascii String DecimalString.
From Stdlib Require DecimalFacts DecimalPos DecimalN.
From stdpp Require Import base option list strings gmap.

Local Open Scope string_scope.
Local Open Scope Z_scope.
Local Open Scope list_scope.

(** ** Numbers *)

Inductive number : Type :=
  | NaN
  | Infinity (neg : bool)
  | Decimal (neg : bool) (m : N) (e : Z).   (* (-1)^neg * m * 10^e *)

Definition int_number (z : Z) : number := Decimal (z <? 0) (Z.abs_N z) 0.

Module Lex.

(** StrWhiteSpaceChar, on 8-bit code units: TAB, LF, VT, FF, CR, SP, NBSP. *)
Definition is_white (c : ascii) : bool :=
  let n := N_of_ascii c in
  ((9 <=? n) && (n <=? 13) || (n =? 32) || (n =? 160))%N.

Fixpoint trimStart (s : string) : string :=
  match s with
  | String c r => if is_white c then trimStart r else s
  | EmptyString => EmptyString
  end.

(** The value of a code unit as a digit of the given radix. *)
Definition digit_value (radix : N) (c : ascii) : option N :=
  let n := N_of_ascii c in
  let v := (if (48 <=? n) && (n <=? 57) then Some (n - 48)
            else if (97 <=? n) && (n <=? 122) then Some (n - 87)
            else if (65 <=? n) && (n <=? 90) then Some (n - 55)
            else None)%N in
  match v with
  | Some d => if (d <? radix)%N then Some d else None
  | None => None
  end.

(** The longest prefix of radix digits, and what follows it. *)
Fixpoint digits_prefix (radix : N) (s : string) : list N * string :=
  match s with
  | String c r =>
      match digit_value radix c with
      | Some d => let '(ds, rest) := digits_prefix radix r in (d :: ds, rest)
      | None => ([], s)
      end
  | EmptyString => ([], EmptyString)
  end.

Definition digits_value (radix : N) (ds : list N) : N :=
  fold_left (fun acc d => acc * radix + d)%N ds 0%N.

(** An optional sign: whether it is a minus, and what follows it. *)
Definition sign_prefix (s : string) : bool * string :=
  match s with
  | String "-" r => (true, r)
  | String "+" r => (false, r)
  | _ => (false, s)
  end.

(** Whether [p] is a prefix of [s]; what follows it when it is. *)
Fixpoint strip_prefix (p s : string) : option string :=
  match p, s with
  | EmptyString, _ => Some s
  | String a p', String b s' =>
      if Ascii.eqb a b then strip_prefix p' s' else None
  | String _ _, EmptyString => None
  end.

(** A code unit no numeric text starts with: it is not white space, not a
    sign, not a decimal digit, not the point and not the I of Infinity. *)
Definition starts_no_number (c : ascii) : bool :=
  negb (is_white c)
  && negb (Ascii.eqb c "+") && negb (Ascii.eqb c "-")
  && negb (Ascii.eqb c ".") && negb (Ascii.eqb c "I")
  && match digit_value 10 c with Some _ => false | None => true end.

End Lex.

(** [parseInt(string)] with no radix argument. *)
Definition parseInt (input : string) : number :=
  let s := Lex.trimStart input in
  let '(neg, s) := Lex.sign_prefix s in
  let '(radix, s) :=
    match s with
    | String "0" (String "x" r) | String "0" (String "X" r) => (16%N, r)
    | _ => (10%N, s)
    end in
  let '(ds, _) := Lex.digits_prefix radix s in
  match ds with
  | [] => NaN
  | _ :: _ => Decimal neg (Lex.digits_value radix ds) 0
  end.

(** ExponentPart of a StrDecimalLiteral: its value when one is there, zero
    when the text does not go on with a complete exponent. *)
Definition exponent_part (s : string) : Z :=
  match s with
  | String "e" r | String "E" r =>
      let '(eneg, r) := Lex.sign_prefix r in
      let '(ds, _) := Lex.digits_prefix 10 r in
      match ds with
      | [] => 0
      | _ :: _ =>
          let v := Z.of_N (Lex.digits_value 10 ds) in
          if eneg then - v else v
      end
  | _ => 0
  end.

(** [parseFloat(string)]: the longest prefix of the trimmed text that is a
    StrDecimalLiteral. *)
Definition parseFloat (input : string) : number :=
  let s := Lex.trimStart input in
  let '(neg, s) := Lex.sign_prefix s in
  match Lex.strip_prefix "Infinity" s with
  | Some _ => Infinity neg
  | None =>
      let '(ip, s) := Lex.digits_prefix 10 s in
      let '(fp, s) :=
        match s with
        | String "." r =>
            let '(fp, r') := Lex.digits_prefix 10 r in
            match ip, fp with
            | [], [] => ([], s)
            | _, _ => (fp, r')
            end
        | _ => ([], s)
        end in
      match ip ++ fp with
      | [] => NaN
      | (_ :: _) as ds =>
          Decimal neg (Lex.digits_value 10 ds)
                  (exponent_part s - Z.of_nat (length fp))
      end
  end.

(** [Number.prototype.toString()] in radix 10. *)
Module NumberToString.

Fixpoint drop_zeros (s : string) : string :=
  match s with
  | String "0" r => drop_zeros r
  | _ => s
  end.

Definition strip_trailing_zeros (s : string) : string :=
  String.rev (drop_zeros (String.rev s)).

Fixpoint zeros (n : nat) : string :=
  match n with O => "" | S n => String "0" (zeros n) end.

Definition decimal (n : N) : string :=
  NilZero.string_of_uint (N.to_uint n).

Definition take (n : nat) (s : string) : string := String.substring 0 n s.
Definition drop (n : nat) (s : string) : string :=
  String.substring n (String.length s - n) s.

(** The text of the positive value [m * 10^e], [m] not zero. *)
Definition positive (m : N) (e : Z) : string :=
  let ds := decimal m in
  let s := strip_trailing_zeros ds in
  let k := Z.of_nat (String.length s) in
  let n := Z.of_nat (String.length ds) + e in
  if (k <=? n) && (n <=? 21) then
    s +:+ zeros (Z.to_nat (n - k))
  else if (0 <? n) && (n <=? 21) then
    take (Z.to_nat n) s +:+ "." +:+ drop (Z.to_nat n) s
  else if (-6 <? n) && (n <=? 0) then
    "0." +:+ zeros (Z.to_nat (- n)) +:+ s
  else
    let x := n - 1 in
    let exponent :=
      "e" +:+ (if x <? 0 then "-" else "+") +:+ decimal (Z.abs_N x) in
    if k =? 1 then s +:+ exponent
    else take 1 s +:+ "." +:+ drop 1 s +:+ exponent.

End NumberToString.

Definition Number_toString (x : number) : string :=
  match x with
  | NaN => "NaN"
  | Infinity neg => if neg then "-Infinity" else "Infinity"
  | Decimal neg m e =>
      if (m =? 0)%N then "0"
      else (if neg then "-" else "") +:+ NumberToString.positive m e
  end.

(** The digits of a decimal numeral, most significant first. *)
Fixpoint uint_digits (d : Decimal.uint) : list N :=
  match d with
  | Decimal.Nil => []
  | Decimal.D0 d => 0%N :: uint_digits d
  | Decimal.D1 d => 1%N :: uint_digits d
  | Decimal.D2 d => 2%N :: uint_digits d
  | Decimal.D3 d => 3%N :: uint_digits d
  | Decimal.D4 d => 4%N :: uint_digits d
  | Decimal.D5 d => 5%N :: uint_digits d
  | Decimal.D6 d => 6%N :: uint_digits d
  | Decimal.D7 d => 7%N :: uint_digits d
  | Decimal.D8 d => 8%N :: uint_digits d
  | Decimal.D9 d => 9%N :: uint_digits d
  end.

(** [Number.MAX_SAFE_INTEGER]: up to it in magnitude every integer is a
    binary64 number, and its shortest decimal text is its exact one. *)
Definition MAX_SAFE_INTEGER : Z := 9007199254740991.

(** ** Dates

    [new Date(text)] never raises: text the runtime cannot read gives a date
    with no time value (an invalid date).  How text is read and how a date
    is printed is left to the runtime, and is a parameter here. *)

Record Date : Type := mkDate { timeValue : option Z }.

(** ** Effects: the store of parameter collections, the console, exceptions *)

Inductive JsError : Type :=
  | Error (message : string)
  | TypeError (message : string).

Abbreviation entries := (list (string * string)).

Record World : Type := mkWorld {
  store : list entries;                 (* the live URLSearchParams objects *)
  console : list (string * JsError)     (* what console.error has printed *)
}.

Inductive outcome (A : Type) : Type :=
  | Returned (a : A)
  | Thrown (error : JsError).
Arguments Returned {A} a.
Arguments Thrown {A} error.

Definition Eff (A : Type) : Type := World -> outcome A * World.

Definition ret {A} (a : A) : Eff A := fun w => (Returned a, w).

Definition bind {A B} (m : Eff A) (k : A -> Eff B) : Eff B :=
  fun w =>
    match m w with
    | (Returned a, w') => k a w'
    | (Thrown error, w') => (Thrown error, w')
    end.

Definition throw {A} (error : JsError) : Eff A := fun w => (Thrown error, w).

Definition try_catch {A} (body : Eff A) (handler : JsError -> Eff A) : Eff A :=
  fun w =>
    match body w with
    | (Returned a, w') => (Returned a, w')
    | (Thrown error, w') => handler error w'
    end.

Definition console_error (message : string) (error : JsError) : Eff unit :=
  fun w => (Returned tt, mkWorld (store w) (console w ++ [(message, error)])).

Declare Scope eff_scope.
Delimit Scope eff_scope with eff.
Bind Scope eff_scope with Eff.
Notation "'let*' x := m 'in' k" := (bind m (fun x => k))
  (at level 10, x pattern, m at level 100, k at level 200) : eff_scope.
Notation "m >> k" := (bind m (fun _ => k))
  (at level 100, k at level 200, right associativity) : eff_scope.
Local Open Scope eff_scope.

(** [for (const x of l) body] *)
Fixpoint for_of {A} (l : list A) (body : A -> Eff unit) : Eff unit :=
  match l with
  | [] => ret tt
  | x :: r => body x >> for_of r body
  end.

(** [for (const x of l) body], the body updating a local variable. *)
Fixpoint for_of_with {A S} (l : list A) (body : A -> S -> Eff S) (s : S)
  : Eff S :=
  match l with
  | [] => ret s
  | x :: r => let* s' := body x s in for_of_with r body s'
  end.

(** [l.map(f)] *)
Fixpoint Array_map {A B} (f : A -> Eff B) (l : list A) : Eff (list B) :=
  match l with
  | [] => ret []
  | x :: r => let* y := f x in let* ys := Array_map f r in ret (y :: ys)
  end.

(** ** URLSearchParams *)

Definition loc := nat.
Bind Scope nat_scope with loc.

Module URLSearchParams.

(** The operations on the list of name-value pairs of one object. *)
Module Pairs.

Definition get (name : string) (l : entries) : option string :=
  snd <$> head (filter (fun e => e.1 = name) l).

Definition getAll (name : string) (l : entries) : list string :=
  snd <$> filter (fun e => e.1 = name) l.

Definition has (name : string) (l : entries) : bool :=
  bool_decide (name ∈ l.*1).

Definition append (name value : string) (l : entries) : entries :=
  l ++ [(name, value)].

Definition delete (name : string) (l : entries) : entries :=
  filter (fun e => e.1 ≠ name) l.

(** The first pair named [name] takes the value, the others go; with no
    such pair, one is appended. *)
Fixpoint set (name value : string) (l : entries) : entries :=
  match l with
  | [] => [(name, value)]
  | e :: r =>
      if decide (e.1 = name) then (name, value) :: delete name r
      else e :: set name value r
  end.

End Pairs.

(** A method called through a location that holds no object raises. *)
Definition read (this : loc) : Eff entries :=
  fun w =>
    match store w !! this with
    | Some l => (Returned l, w)
    | None => (Thrown (TypeError "not a URLSearchParams object"), w)
    end.

Definition update (this : loc) (f : entries -> entries) : Eff unit :=
  let* l := read this in
  fun w => (Returned tt, mkWorld (<[this := f l]> (store w)) (console w)).

(** [new URLSearchParams()] *)
Definition new : Eff loc :=
  fun w => (Returned (length (store w)),
            mkWorld (store w ++ [[]]) (console w)).

Definition get (this : loc) (name : string) : Eff (option string) :=
  let* l := read this in ret (Pairs.get name l).

Definition getAll (this : loc) (name : string) : Eff (list string) :=
  let* l := read this in ret (Pairs.getAll name l).

Definition has (this : loc) (name : string) : Eff bool :=
  let* l := read this in ret (Pairs.has name l).

Definition append (this : loc) (name value : string) : Eff unit :=
  update this (Pairs.append name value).

Definition delete (this : loc) (name : string) : Eff unit :=
  update this (Pairs.delete name).

Definition set (this : loc) (name value : string) : Eff unit :=
  update this (Pairs.set name value).

(** The pairs an iteration over the object visits.  The loops of this
    program only change an object other than the one they iterate over,
    so an iteration sees the pairs as they are when it starts. *)
Definition iterate (this : loc) : Eff entries := read this.

End URLSearchParams.

(** ** Scalar extraction *)

Definition parsing_message (key : string) : string :=
  "An error occurred while parsing " +:+ key.

Definition dquote : string := String (ascii_of_nat 34) "".

Definition boolean_message : string :=
  "string must be either " +:+ dquote +:+ "true" +:+ dquote
    +:+ " or " +:+ dquote +:+ "false" +:+ dquote.

Definition getString (params : loc) (key : string) : Eff (option string) :=
  let* param := URLSearchParams.get params key in
  match param with
  | None | Some "" => ret None
  | Some param => ret (Some param)
  end.

Definition getInt (params : loc) (key : string) : Eff (option number) :=
  let* param := URLSearchParams.get params key in
  match param with
  | None | Some "" => ret None
  | Some param =>
      try_catch
        (ret (Some (parseInt param)))
        (fun error =>
           console_error (parsing_message key) error >> ret None)
  end.

Definition getFloat (params : loc) (key : string) : Eff (option number) :=
  let* param := URLSearchParams.get params key in
  match param with
  | None | Some "" => ret None
  | Some param =>
      try_catch
        (ret (Some (parseFloat param)))
        (fun error =>
           console_error (parsing_message key) error >> ret None)
  end.

(** The body of the [try] of [getBoolean], also the callback of
    [getBooleanArray]. *)
Definition parseBoolean (param : string) : Eff bool :=
  if bool_decide (param ≠ "true") && bool_decide (param ≠ "false")
  then throw (Error boolean_message)
  else ret (bool_decide (param = "true")).

Definition getBoolean (params : loc) (key : string) : Eff (option bool) :=
  let* param := URLSearchParams.get params key in
  match param with
  | None | Some "" => ret None
  | Some param =>
      try_catch
        (let* b := parseBoolean param in ret (Some b))
        (fun error =>
           console_error (parsing_message key) error >> ret None)
  end.

Section DateExtraction.

(** The runtime's reading of a date text: its time value, if any. *)
Variable Date_parse : string -> option Z.

Definition new_Date (text : string) : Date := mkDate (Date_parse text).

Definition getDate (params : loc) (key : string) : Eff (option Date) :=
  let* param := URLSearchParams.get params key in
  match param with
  | None | Some "" => ret None
  | Some param =>
      try_catch
        (ret (Some (new_Date param)))
        (fun error =>
           console_error (parsing_message key) error >> ret None)
  end.

Definition getDateArray (params : loc) (key : string)
  : Eff (option (list Date)) :=
  let* paramArray := URLSearchParams.getAll params key in
  if (length paramArray =? 0)%nat then ret None
  else
    try_catch
      (let* a := Array_map (fun param => ret (new_Date param)) paramArray in
       ret (Some a))
      (fun error =>
         console_error (parsing_message key) error >> ret None).

End DateExtraction.

(** ** Array extraction *)

Definition getStringArray (params : loc) (key : string)
  : Eff (option (list string)) :=
  let* paramArray := URLSearchParams.getAll params key in
  if (length paramArray =? 0)%nat then ret None
  else ret (Some paramArray).

Definition getIntArray (params : loc) (key : string)
  : Eff (option (list number)) :=
  let* paramArray := URLSearchParams.getAll params key in
  if (length paramArray =? 0)%nat then ret None
  else
    try_catch
      (let* a := Array_map (fun param => ret (parseInt param)) paramArray in
       ret (Some a))
      (fun error =>
         console_error (parsing_message key) error >> ret None).

Definition getFloatArray (params : loc) (key : string)
  : Eff (option (list number)) :=
  let* paramArray := URLSearchParams.getAll params key in
  if (length paramArray =? 0)%nat then ret None
  else
    try_catch
      (let* a := Array_map (fun param => ret (parseFloat param)) paramArray in
       ret (Some a))
      (fun error =>
         console_error (parsing_message key) error >> ret None).

Definition getBooleanArray (params : loc) (key : string)
  : Eff (option (list bool)) :=
  let* paramArray := URLSearchParams.getAll params key in
  if (length paramArray =? 0)%nat then ret None
  else
    try_catch
      (let* a := Array_map parseBoolean paramArray in ret (Some a))
      (fun error =>
         console_error (parsing_message key) error >> ret None).

(** ** Pagination and ordering *)

Record Pagination : Type := mkPagination {
  page : option number;
  pageSize : option number
}.

Record Ordering : Type := mkOrdering {
  orderBy : option string;
  orderDirection : option string
}.

Definition getPagination (params : loc) : Eff Pagination :=
  try_catch
    (let* page := getInt params "page" in
     let* pageSize := getInt params "pageSize" in
     ret (mkPagination page pageSize))
    (fun error =>
       console_error "An error occurred while parsing pagination" error >>
       ret (mkPagination None None)).

Definition ordering_message : string :=
  "orderDirection must be either " +:+ dquote +:+ "asc" +:+ dquote
    +:+ " or " +:+ dquote +:+ "desc" +:+ dquote.

Definition getOrdering (params : loc) : Eff Ordering :=
  try_catch
    (let* orderBy := getString params "orderBy" in
     let* orderDirection := getString params "orderDirection" in
     if bool_decide (orderDirection ≠ None)
        && bool_decide (orderDirection ≠ Some "asc")
        && bool_decide (orderDirection ≠ Some "desc")
     then throw (Error ordering_message)
     else ret (mkOrdering orderBy orderDirection))
    (fun error =>
       console_error "An error occurred while parsing ordering" error >>
       ret (mkOrdering None None)).

(** ** Collection transforms *)

Definition copySearchParams (params : loc) : Eff loc :=
  let* newParams := URLSearchParams.new in
  let* pairs := URLSearchParams.iterate params in
  for_of pairs (fun '(key, value) =>
    URLSearchParams.append newParams key value) >>
  ret newParams.

Definition deleteSearchParams (params : loc) (keysToDelete : list string)
  : Eff loc :=
  let* newParams := copySearchParams params in
  for_of keysToDelete (fun key => URLSearchParams.delete newParams key) >>
  ret newParams.

Definition filterSearchParams (params : loc) (keysToKeep : list string)
  : Eff loc :=
  let* newParams := URLSearchParams.new in
  let* pairs := URLSearchParams.iterate params in
  for_of pairs (fun '(key, value) =>
    if bool_decide (key ∈ keysToKeep)
    then URLSearchParams.append newParams key value
    else ret tt) >>
  ret newParams.

(** ** Construction and merge *)

Inductive ParamValue : Type :=
  | VUndefined
  | VString (s : string)
  | VNumber (n : number)
  | VBoolean (b : bool)
  | VDate (d : Date)
  | VStrings (a : list string)
  | VNumbers (a : list number)
  | VBooleans (a : list bool)
  | VDates (a : list Date).

Definition Array_isArray (value : ParamValue) : bool :=
  match value with
  | VStrings _ | VNumbers _ | VBooleans _ | VDates _ => true
  | _ => false
  end.

Definition Boolean_toString (b : bool) : string :=
  if b then "true" else "false".

(** [a.join(",")] *)
Fixpoint join (a : list string) : string :=
  match a with
  | [] => ""
  | [s] => s
  | s :: r => s +:+ "," +:+ join r
  end.

Section Construction.

(** The runtime's text of a date. *)
Variable Date_toString : Date -> string.

(** [item.toString()] for each item of an array value, in order; no items
    for a value that is not an array. *)
Definition items_toString (value : ParamValue) : list string :=
  match value with
  | VStrings a => a
  | VNumbers a => Number_toString <$> a
  | VBooleans a => Boolean_toString <$> a
  | VDates a => Date_toString <$> a
  | _ => []
  end.

(** [value.toString()], for a value that is not [undefined]. *)
Definition value_toString (value : ParamValue) : string :=
  match value with
  | VUndefined => ""
  | VString s => s
  | VNumber n => Number_toString n
  | VBoolean b => Boolean_toString b
  | VDate d => Date_toString d
  | _ => join (items_toString value)
  end.

(** The argument is the object's own entries, in the order
    [Object.entries] yields them. *)
Definition createSearchParams (params : list (string * ParamValue))
  : Eff loc :=
  let* urlSearchParams := URLSearchParams.new in
  for_of params (fun '(key, value) =>
    match value with
    | VUndefined => ret tt
    | _ =>
        if Array_isArray value then
          for_of (items_toString value) (fun item =>
            URLSearchParams.append urlSearchParams key item)
        else URLSearchParams.set urlSearchParams key (value_toString value)
    end) >>
  ret urlSearchParams.

Definition addSearchParams (params : loc)
    (paramsToAdd : list (string * ParamValue)) : Eff loc :=
  let* newParams := copySearchParams params in
  for_of paramsToAdd (fun '(key, value) =>
    match value with
    | VUndefined => ret tt
    | _ =>
        if Array_isArray value then
          let* present := URLSearchParams.has newParams key in
          (if (length (items_toString value) =? 0)%nat || present
           then URLSearchParams.delete newParams key
           else ret tt) >>
          for_of (items_toString value) (fun item =>
            URLSearchParams.append newParams key item)
        else URLSearchParams.set newParams key (value_toString value)
    end) >>
  ret newParams.

End Construction.

(** ** Conversion to a plain object *)

Inductive ObjectValue : Type :=
  | OString (s : string)
  | OArray (a : list string).

(** The names an object created by [{}] inherits from [Object.prototype]:
    reading one of them gives a value that is not [undefined] and has no
    [push]; assigning to [__proto__] with a string changes nothing, and
    assigning to another one creates an own property. *)
Definition Object_prototype_names : list string :=
  [ "constructor"; "__proto__"; "hasOwnProperty"; "isPrototypeOf";
    "propertyIsEnumerable"; "toLocaleString"; "toString"; "valueOf";
    "__defineGetter__"; "__defineSetter__"; "__lookupGetter__";
    "__lookupSetter__" ].

Definition push_message : string := "object[key].push is not a function".

(** One turn of the loop of [searchParamsToObject], on the own properties
    of [object]. *)
Definition searchParamsToObject_step (keysToArray : list string)
    (pair : string * string) (object : gmap string ObjectValue)
  : Eff (gmap string ObjectValue) :=
  let '(key, value) := pair in
  if bool_decide (key ∈ keysToArray) then
    match object !! key with
    | Some (OArray a) => ret (<[key := OArray (a ++ [value])]> object)
    | Some (OString _) => throw (TypeError push_message)
    | None =>
        if bool_decide (key ∈ Object_prototype_names)
        then throw (TypeError push_message)
        else ret (<[key := OArray [value]]> object)
    end
  else
    if bool_decide (key = "__proto__") then ret object
    else ret (<[key := OString value]> object).

Definition searchParamsToObject (params : loc) (keysToArray : list string)
  : Eff (gmap string ObjectValue) :=
  let* pairs := URLSearchParams.iterate params in
  for_of_with pairs (searchParamsToObject_step keysToArray) ∅.

(** ** Running a computation *)

(** A world whose store holds the given collections, with a silent console. *)
Definition world_of (objects : list entries) : World := mkWorld objects [].

(** The world after one more line on the console. *)
Definition logged (w : World) (message : string) (error : JsError) : World :=
  mkWorld (store w) (console w ++ [(message, error)]).

(** The world after one more object in the store. *)
Definition allocated (w : World) (l : entries) : World :=
  mkWorld (store w ++ [l]) (console w).

(** The world in which the object at a location holds the given pairs. *)
Definition put (w : World) (n : loc) (l : entries) : World :=
  mkWorld (<[n := l]> (store w)) (console w).

(** ** The pairs a loop turn leaves in the object it fills

    Each loop of the transforms changes one object only; what one turn does
    to the pairs of that object, as a function. *)

Definition append_pair (e : string * string) (l : entries) : entries :=
  URLSearchParams.Pairs.append e.1 e.2 l.

Definition keep_pair (keysToKeep : list string) (e : string * string)
    (l : entries) : entries :=
  if bool_decide (e.1 ∈ keysToKeep) then URLSearchParams.Pairs.append e.1 e.2 l else l.

Definition append_items (key : string) (items : list string) (l : entries)
  : entries :=
  foldl (fun l item => URLSearchParams.Pairs.append key item l) l items.

Definition create_turn (Date_toString : Date -> string)
    (e : string * ParamValue) (l : entries) : entries :=
  match e.2 with
  | VUndefined => l
  | _ =>
      if Array_isArray e.2
      then append_items e.1 (items_toString Date_toString e.2) l
      else URLSearchParams.Pairs.set e.1 (value_toString Date_toString e.2) l
  end.

(** The pairs the loop of [createSearchParams] makes of [acc]. *)
Definition created (Date_toString : Date -> string)
    (params : list (string * ParamValue)) (acc : entries) : entries :=
  foldl (fun l e => create_turn Date_toString e l) acc params.

Definition add_turn (Date_toString : Date -> string)
    (e : string * ParamValue) (l : entries) : entries :=
  match e.2 with
  | VUndefined => l
  | _ =>
      if Array_isArray e.2 then
        let items := items_toString Date_toString e.2 in
        append_items e.1 items
          (if (length items =? 0)%nat || URLSearchParams.Pairs.has e.1 l
           then URLSearchParams.Pairs.delete e.1 l else l)
      else URLSearchParams.Pairs.set e.1 (value_toString Date_toString e.2) l
  end.

(** The pairs the loop of [addSearchParams] makes of the pairs [l]. *)
Definition added_to (Date_toString : Date -> string) (l : entries)
    (paramsToAdd : list (string * ParamValue)) : entries :=
  foldl (fun l e => add_turn Date_toString e l) l paramsToAdd.

(** A loop body that, at each turn, rewrites the pairs of the object at [n]
    by a function of them, and does nothing else. *)
Definition turns_as {A} (n : loc) (body : A -> Eff unit)
    (g : A -> entries -> entries) : Prop :=
  forall x w l, store w !! n = Some l ->
    body x w = (Returned tt, put w n (g x l)).

(** What a plain object made of the pairs [l] holds under [key]: the array
    of all the values of an array key, the last value of another key. *)
Definition property_of (keysToArray : list string) (l : entries)
    (key : string) : option ObjectValue :=
  if bool_decide (key ∈ keysToArray) then
    match URLSearchParams.Pairs.getAll key l with
    | [] => None
    | a => Some (OArray a)
    end
  else OString <$> last (URLSearchParams.Pairs.getAll key l).

(** The texts a value of a mapping stands for in a collection: none for
    [undefined], the items of an array, the text of a scalar. *)
Definition written (Date_toString : Date -> string) (value : ParamValue)
  : list string :=
  match value with
  | VUndefined => []
  | _ =>
      if Array_isArray value then items_toString Date_toString value
      else [value_toString Date_toString value]
  end.

(** A computation that leaves every object of the store as it was, in
    every world, however it ends. *)
Definition keeps_store {A} (m : Eff A) : Prop :=
  forall w, store (m w).2 = store w.

(** * Properties *)

Import URLSearchParams.

(** ** Running the primitives on a live object *)

Section Primitives.

Context (w : World) (this : loc) (l : entries).
Hypothesis live : store w !! this = Some l.

Lemma read_live : read this w = (Returned l, w).
Proof. unfold read. by rewrite live. Qed.

Lemma get_live name : get this name w = (Returned (Pairs.get name l), w).
Proof. unfold get, bind. by rewrite read_live. Qed.

Lemma getAll_live name :
  getAll this name w = (Returned (Pairs.getAll name l), w).
Proof. unfold getAll, bind. by rewrite read_live. Qed.

Lemma has_live name : has this name w = (Returned (Pairs.has name l), w).
Proof. unfold has, bind. by rewrite read_live. Qed.

Lemma update_live f :
  update this f w
  = (Returned tt, mkWorld (<[this := f l]> (store w)) (console w)).
Proof. unfold update, bind. by rewrite read_live. Qed.

End Primitives.

Lemma bind_returned {A B} (m : Eff A) (k : A -> Eff B) w a w' :
  m w = (Returned a, w') -> bind m k w = k a w'.
Proof. intros E. unfold bind. by rewrite E. Qed.

(** ** The pairs of one object *)

Lemma Pairs_get_cons name e (l : entries) :
  Pairs.get name (e :: l)
  = if decide (e.1 = name) then Some e.2 else Pairs.get name l.
Proof.
  unfold Pairs.get. rewrite filter_cons. by destruct (decide (e.1 = name)).
Qed.

Lemma Pairs_get_head name (l : entries) :
  Pairs.get name l = head (Pairs.getAll name l).
Proof.
  unfold Pairs.get, Pairs.getAll. by destruct (filter _ l).
Qed.

Lemma Pairs_getAll_nil name (l : entries) :
  Pairs.getAll name l = [] <-> name ∉ l.*1.
Proof.
  unfold Pairs.getAll. induction l as [|e l IH]; simpl.
  - split; [intros _; apply not_elem_of_nil | done].
  - rewrite filter_cons, not_elem_of_cons.
    destruct (decide (e.1 = name)) as [->|Hne]; simpl.
    + split; [done | intros [? _]; done].
    + rewrite IH. split; [intros ?; split; [congruence | done] | by intros [_ ?]].
Qed.

Lemma Pairs_get_None name (l : entries) :
  Pairs.get name l = None <-> name ∉ l.*1.
Proof.
  rewrite <- Pairs_getAll_nil, Pairs_get_head.
  by destruct (Pairs.getAll name l).
Qed.

(** ** Scalar extraction *)

Section Scalars.

Context (Date_parse : string -> option Z).
Context (w : World) (params : loc) (l : entries).
Hypothesis live : store w !! params = Some l.

(** What each extractor does once the first value is known to be there
    and not empty. *)
Lemma getString_value key s :
  Pairs.get key l = Some s -> s <> "" ->
  getString params key w = (Returned (Some s), w).
Proof.
  intros E Hs. unfold getString.
  rewrite (bind_returned _ _ _ _ _ (get_live w params l live key)), E.
  by destruct s.
Qed.

Lemma getInt_value key s :
  Pairs.get key l = Some s -> s <> "" ->
  getInt params key w = (Returned (Some (parseInt s)), w).
Proof.
  intros E Hs. unfold getInt.
  rewrite (bind_returned _ _ _ _ _ (get_live w params l live key)), E.
  by destruct s.
Qed.

Lemma getFloat_value key s :
  Pairs.get key l = Some s -> s <> "" ->
  getFloat params key w = (Returned (Some (parseFloat s)), w).
Proof.
  intros E Hs. unfold getFloat.
  rewrite (bind_returned _ _ _ _ _ (get_live w params l live key)), E.
  by destruct s.
Qed.

Lemma getBoolean_value key s :
  Pairs.get key l = Some s -> s <> "" ->
  getBoolean params key w
  = if decide (s = "true") then (Returned (Some true), w)
    else if decide (s = "false") then (Returned (Some false), w)
    else (Returned None, logged w (parsing_message key) (Error boolean_message)).
Proof.
  intros E Hs. unfold getBoolean.
  rewrite (bind_returned _ _ _ _ _ (get_live w params l live key)), E.
  destruct s as [|c s]; [done|].
  unfold try_catch, bind, parseBoolean.
  destruct (decide (String c s = "true")) as [->|Ht]; [done|].
  rewrite (bool_decide_eq_true_2 _ Ht).
  destruct (decide (String c s = "false")) as [->|Hf]; [done|].
  by rewrite (bool_decide_eq_true_2 _ Hf).
Qed.

Lemma getDate_value key s :
  Pairs.get key l = Some s -> s <> "" ->
  getDate Date_parse params key w
  = (Returned (Some (new_Date Date_parse s)), w).
Proof.
  intros E Hs. unfold getDate.
  rewrite (bind_returned _ _ _ _ _ (get_live w params l live key)), E.
  by destruct s.
Qed.

Lemma getBoolean_absent key :
  Pairs.get key l = None \/ Pairs.get key l = Some "" ->
  getBoolean params key w = (Returned None, w).
Proof.
  intros E. unfold getBoolean.
  rewrite (bind_returned _ _ _ _ _ (get_live w params l live key)).
  by destruct E as [-> | ->].
Qed.

(** C5: a key with no value at all, or whose first value is the empty
    string, makes each of [getString], [getInt], [getFloat], [getBoolean]
    and [getDate] return absent, and nothing is printed on the console
    (the world is left as it was). *)
Theorem scalar_extractors_absent_silently key :
  key ∉ l.*1 \/ Pairs.get key l = Some "" ->
  getString params key w = (Returned None, w)
  /\ getInt params key w = (Returned None, w)
  /\ getFloat params key w = (Returned None, w)
  /\ getBoolean params key w = (Returned None, w)
  /\ getDate Date_parse params key w = (Returned None, w).
Proof.
  intros H.
  assert (E : Pairs.get key l = None \/ Pairs.get key l = Some "")
    by (destruct H; [left; by apply Pairs_get_None | by right]).
  unfold getString, getInt, getFloat, getBoolean, getDate.
  rewrite !(bind_returned _ _ _ _ _ (get_live w params l live key)).
  by destruct E as [-> | ->].
Qed.

(** C3: [getBoolean] returns true exactly when the first value is the
    text true, false exactly when it is the text false (case matters),
    in both cases printing nothing; for every other first value that is
    not empty it returns absent after printing one line that names the
    key. *)
Theorem getBoolean_exactly key :
  ((getBoolean params key w).1 = Returned (Some true)
     <-> Pairs.get key l = Some "true")
  /\ ((getBoolean params key w).1 = Returned (Some false)
     <-> Pairs.get key l = Some "false")
  /\ (Pairs.get key l = Some "true" \/ Pairs.get key l = Some "false" ->
      (getBoolean params key w).2 = w)
  /\ (forall s, Pairs.get key l = Some s ->
        s <> "" -> s <> "true" -> s <> "false" ->
        getBoolean params key w
        = (Returned None,
           logged w (parsing_message key) (Error boolean_message))).
Proof.
  pose proof (getBoolean_absent key) as absent.
  assert (cases : forall b : bool,
    (getBoolean params key w).1 = Returned (Some b) ->
    Pairs.get key l = Some (Boolean_toString b)).
  { intros b. destruct (Pairs.get key l) as [s|] eqn:E;
      [|rewrite absent; [done | by left]].
    destruct (decide (s = "")) as [->|Hs]; [rewrite absent; [done | by right]|].
    rewrite (getBoolean_value key s E Hs).
    repeat case_decide; destruct b; simpl; congruence. }
  split; [|split; [|split]].
  - split; [apply (cases true)|].
    intros E. by rewrite (getBoolean_value key "true" E).
  - split; [apply (cases false)|].
    intros E. by rewrite (getBoolean_value key "false" E).
  - intros [E|E]; by rewrite (getBoolean_value key _ E).
  - intros s E Hs Ht Hf. rewrite (getBoolean_value key s E Hs).
    by repeat case_decide.
Qed.

(** C2, as the code has it: with first value 42 [getInt] returns the
    number 42 and with an empty first value it returns absent, but with
    first value abc it returns the number NaN, and prints nothing:
    [parseInt] does not raise, so the handler is never entered. *)
Theorem getInt_examples key :
  (Pairs.get key l = Some "42" ->
     getInt params key w = (Returned (Some (int_number 42)), w))
  /\ (Pairs.get key l = Some "abc" ->
     getInt params key w = (Returned (Some NaN), w))
  /\ (Pairs.get key l = Some "" ->
     getInt params key w = (Returned None, w)).
Proof.
  split; [|split]; intros E.
  - by rewrite (getInt_value key _ E).
  - by rewrite (getInt_value key _ E).
  - unfold getInt.
    by rewrite (bind_returned _ _ _ _ _ (get_live w params l live key)), E.
Qed.

(** C4: when the first value of orderDirection is not empty and is
    neither asc nor desc, [getOrdering] returns both fields absent,
    whatever orderBy holds, and prints one line. *)
Theorem getOrdering_resets_both d :
  Pairs.get "orderDirection" l = Some d ->
  d <> "" -> d <> "asc" -> d <> "desc" ->
  getOrdering params w
  = (Returned (mkOrdering None None),
     logged w "An error occurred while parsing ordering"
            (Error ordering_message)).
Proof.
  intros E Hd Ha Hdesc. unfold getOrdering, try_catch.
  assert (exists o, getString params "orderBy" w = (Returned o, w)) as [o Ho].
  { destruct (Pairs.get "orderBy" l) as [s|] eqn:Eo.
    - destruct (decide (s = "")) as [->|Hs].
      + exists None. unfold getString.
        by rewrite (bind_returned _ _ _ _ _ (get_live w params l live _)), Eo.
      + exists (Some s). by apply getString_value.
    - exists None. unfold getString.
      by rewrite (bind_returned _ _ _ _ _ (get_live w params l live _)), Eo. }
  rewrite (bind_returned _ _ _ _ _ Ho).
  rewrite (bind_returned _ _ _ _ _ (getString_value _ _ E Hd)).
  rewrite !bool_decide_eq_true_2 by congruence.
  done.
Qed.

End Scalars.

Lemma scalar_extractors_absent_silently_witness :
  let w := world_of [[("b", "1"); ("a", "")]] in
  getString 0 "a" w = (Returned None, w)
  /\ getInt 0 "a" w = (Returned None, w)
  /\ getFloat 0 "a" w = (Returned None, w)
  /\ getBoolean 0 "a" w = (Returned None, w)
  /\ getDate (fun _ => None) 0 "a" w = (Returned None, w).
Proof.
  apply (scalar_extractors_absent_silently (fun _ => None)
           (world_of [[("b", "1"); ("a", "")]]) 0%nat
           [("b", "1"); ("a", "")] eq_refl "a").
  right. reflexivity.
Defined.

Lemma getBoolean_exactly_witness :
  getBoolean 0 "flag" (world_of [[("flag", "TRUE")]])
  = (Returned None,
     logged (world_of [[("flag", "TRUE")]])
            (parsing_message "flag") (Error boolean_message)).
Proof.
  apply (proj2 (proj2 (proj2
           (getBoolean_exactly (world_of [[("flag", "TRUE")]]) 0%nat
              [("flag", "TRUE")] eq_refl "flag"))) "TRUE");
    [reflexivity | discriminate ..].
Defined.

Lemma getInt_examples_witness :
  getInt 0 "k" (world_of [[("k", "abc")]])
  = (Returned (Some NaN), world_of [[("k", "abc")]]).
Proof.
  apply (proj1 (proj2
           (getInt_examples (world_of [[("k", "abc")]]) 0%nat
              [("k", "abc")] eq_refl "k"))).
  reflexivity.
Defined.

Lemma getOrdering_resets_both_witness :
  let w := world_of [[("orderBy", "name"); ("orderDirection", "sideways")]] in
  getOrdering 0 w
  = (Returned (mkOrdering None None),
     logged w "An error occurred while parsing ordering"
            (Error ordering_message)).
Proof.
  apply (getOrdering_resets_both
           (world_of [[("orderBy", "name"); ("orderDirection", "sideways")]])
           0%nat [("orderBy", "name"); ("orderDirection", "sideways")]
           eq_refl "sideways");
    [reflexivity | discriminate ..].
Defined.

(** ** Array extraction *)

Lemma Array_map_pure {A B} (f : A -> B) (a : list A) w :
  Array_map (fun x => ret (f x)) a w = (Returned (f <$> a), w).
Proof.
  induction a as [|x a IH]; [done|].
  simpl. unfold bind at 1. unfold ret at 1.
  unfold bind. by rewrite IH.
Qed.

Lemma Array_map_parseBoolean_bad (a : list string) s w :
  s ∈ a -> s <> "true" -> s <> "false" ->
  Array_map parseBoolean a w = (Thrown (Error boolean_message), w).
Proof.
  intros Hin Ht Hf. induction a as [|x a IH]; [by apply not_elem_of_nil in Hin|].
  simpl. unfold bind at 1, parseBoolean at 1.
  destruct (decide (x = s)) as [->|Hx].
  - rewrite !bool_decide_eq_true_2 by done. done.
  - apply elem_of_cons in Hin as [?|Hin]; [congruence|].
    destruct (bool_decide (x <> "true") && bool_decide (x <> "false"));
      [done|].
    unfold ret at 1. unfold bind. by rewrite IH.
Qed.

(** A text that starts with a code unit no numeric text starts with is read
    as NaN by both parsers. *)
Lemma parse_no_number c r :
  Lex.starts_no_number c = true ->
  parseInt (String c r) = NaN /\ parseFloat (String c r) = NaN.
Proof.
  destruct c as [[] [] [] [] [] [] [] []]; intros H;
    try discriminate H; split; reflexivity.
Qed.

Section Arrays.

Context (w : World) (params : loc) (l : entries).
Hypothesis live : store w !! params = Some l.

Lemma getIntArray_values key :
  Pairs.getAll key l <> [] ->
  getIntArray params key w
  = (Returned (Some (parseInt <$> Pairs.getAll key l)), w).
Proof.
  intros Hne. unfold getIntArray.
  rewrite (bind_returned _ _ _ _ _ (getAll_live w params l live key)).
  destruct (Pairs.getAll key l) as [|s a] eqn:E; [done|].
  change (length (s :: a) =? 0)%nat with false. cbv iota.
  unfold try_catch.
  by rewrite (bind_returned _ _ _ _ _ (Array_map_pure parseInt (s :: a) w)).
Qed.

Lemma getFloatArray_values key :
  Pairs.getAll key l <> [] ->
  getFloatArray params key w
  = (Returned (Some (parseFloat <$> Pairs.getAll key l)), w).
Proof.
  intros Hne. unfold getFloatArray.
  rewrite (bind_returned _ _ _ _ _ (getAll_live w params l live key)).
  destruct (Pairs.getAll key l) as [|s a] eqn:E; [done|].
  change (length (s :: a) =? 0)%nat with false. cbv iota.
  unfold try_catch.
  by rewrite (bind_returned _ _ _ _ _ (Array_map_pure parseFloat (s :: a) w)).
Qed.

(** The sibling [getBooleanArray] does discard the whole array: one value
    that is neither true nor false makes the callback raise, and the
    handler prints one line and returns absent. *)
Lemma getBooleanArray_bad_element key s :
  s ∈ Pairs.getAll key l -> s <> "true" -> s <> "false" ->
  getBooleanArray params key w
  = (Returned None, logged w (parsing_message key) (Error boolean_message)).
Proof.
  intros Hin Ht Hf. unfold getBooleanArray.
  rewrite (bind_returned _ _ _ _ _ (getAll_live w params l live key)).
  destruct (Pairs.getAll key l) as [|s0 a] eqn:E;
    [by apply not_elem_of_nil in Hin|].
  change (length (s0 :: a) =? 0)%nat with false. cbv iota.
  unfold try_catch, bind at 1.
  by rewrite (Array_map_parseBoolean_bad _ s w Hin Ht Hf).
Qed.

(** C1, as the code has it: when key a has exactly the values 1, 2, x in
    this order, [getIntArray] returns the array of 1, 2 and NaN, not
    absent, and prints nothing. *)
Theorem getIntArray_keeps_bad_element :
  Pairs.getAll "a" l = ["1"; "2"; "x"] ->
  getIntArray params "a" w
  = (Returned (Some [int_number 1; int_number 2; NaN]), w).
Proof.
  intros E. rewrite getIntArray_values by (by rewrite E). by rewrite E.
Qed.

(** C10: for a key with at least one value, [getIntArray] and
    [getFloatArray] never return absent and never print: they return the
    values parsed one by one, an array as long as the key has
    occurrences, in which each value that starts with a code unit no
    numeric text starts with stands as NaN. *)
Theorem number_arrays_never_absent key :
  key ∈ l.*1 ->
  exists ints floats : list number,
    getIntArray params key w = (Returned (Some ints), w)
    /\ getFloatArray params key w = (Returned (Some floats), w)
    /\ ints = parseInt <$> Pairs.getAll key l
    /\ floats = parseFloat <$> Pairs.getAll key l
    /\ length ints = length (filter (fun e => e.1 = key) l)
    /\ length floats = length (filter (fun e => e.1 = key) l)
    /\ forall (i : nat) c r,
         Pairs.getAll key l !! i = Some (String c r) ->
         Lex.starts_no_number c = true ->
         ints !! i = Some NaN /\ floats !! i = Some NaN.
Proof.
  intros Hin.
  assert (Hne : Pairs.getAll key l <> []).
  { intros E. by apply Pairs_getAll_nil in E. }
  exists (parseInt <$> Pairs.getAll key l), (parseFloat <$> Pairs.getAll key l).
  split; [by apply getIntArray_values|].
  split; [by apply getFloatArray_values|].
  do 2 (split; [done|]).
  split; [by rewrite length_fmap; unfold Pairs.getAll; rewrite length_fmap|].
  split; [by rewrite length_fmap; unfold Pairs.getAll; rewrite length_fmap|].
  intros i c r Hi Hc. rewrite !list_lookup_fmap, Hi. simpl.
  by destruct (parse_no_number c r Hc) as [-> ->].
Qed.

End Arrays.

Lemma getIntArray_keeps_bad_element_witness :
  let w := world_of [[("a", "1"); ("a", "2"); ("a", "x")]] in
  getIntArray 0 "a" w
  = (Returned (Some [int_number 1; int_number 2; NaN]), w).
Proof.
  apply (getIntArray_keeps_bad_element
           (world_of [[("a", "1"); ("a", "2"); ("a", "x")]]) 0%nat
           [("a", "1"); ("a", "2"); ("a", "x")] eq_refl).
  reflexivity.
Defined.

Lemma number_arrays_never_absent_witness :
  let w := world_of [[("a", "1"); ("b", "7"); ("a", "x")]] in
  exists ints floats : list number,
    getIntArray 0 "a" w = (Returned (Some ints), w)
    /\ getFloatArray 0 "a" w = (Returned (Some floats), w)
    /\ ints = [int_number 1; NaN]
    /\ floats = [int_number 1; NaN].
Proof.
  destruct (number_arrays_never_absent
              (world_of [[("a", "1"); ("b", "7"); ("a", "x")]]) 0%nat
              [("a", "1"); ("b", "7"); ("a", "x")] eq_refl "a")
    as (ints & floats & Hi & Hf & Ei & Ef & _).
  - apply list_elem_of_here.
  - exists ints, floats. repeat split; assumption.
Defined.

(** ** Loops that fill one object *)

Lemma put_same w n l : store w !! n = Some l -> put w n l = w.
Proof.
  intros H. destruct w as [s c]. unfold put. simpl in *.
  by rewrite list_insert_id.
Qed.

Lemma put_put w n l l' : put (put w n l) n l' = put w n l'.
Proof. unfold put. simpl. by rewrite list_insert_insert_eq. Qed.

Lemma put_lookup w n l l' :
  store w !! n = Some l -> store (put w n l') !! n = Some l'.
Proof.
  intros H. unfold put. simpl. apply list_lookup_insert_eq.
  by eapply lookup_lt_Some.
Qed.

Lemma put_allocated w l l' :
  put (allocated w l) (length (store w)) l' = allocated w l'.
Proof.
  unfold put, allocated. simpl. f_equal.
  rewrite insert_app_r_alt by lia. by rewrite Nat.sub_diag.
Qed.

Lemma allocated_new w l : store (allocated w l) !! length (store w) = Some l.
Proof. unfold allocated. simpl. by rewrite lookup_app_r, Nat.sub_diag by lia. Qed.

Lemma allocated_old w l n l' :
  store w !! n = Some l' -> store (allocated w l) !! n = Some l'.
Proof. intros H. unfold allocated. simpl. by apply lookup_app_l_Some. Qed.

Lemma new_run w : new w = (Returned (length (store w)), allocated w []).
Proof. done. Qed.

(** Such a loop rewrites the pairs by the turns' functions in order. *)
Lemma for_of_turns {A} n (body : A -> Eff unit) g :
  turns_as n body g ->
  forall xs w l, store w !! n = Some l ->
    for_of xs body w = (Returned tt, put w n (foldl (fun l x => g x l) l xs)).
Proof.
  intros Hbody xs. induction xs as [|x xs IH]; intros w l Hl; simpl.
  - by rewrite put_same.
  - rewrite (bind_returned _ _ _ _ _ (Hbody x w l Hl)).
    rewrite (IH _ (g x l)) by (by eapply put_lookup).
    by rewrite put_put.
Qed.

Lemma turns_append n :
  turns_as n (fun '(key, value) => append n key value) append_pair.
Proof. intros [key value] w l Hl. by apply update_live. Qed.

Lemma turns_items n key :
  turns_as n (fun item => append n key item)
           (fun item l => Pairs.append key item l).
Proof. intros item w l Hl. by apply update_live. Qed.

Lemma turns_delete n :
  turns_as n (fun key => delete n key) (fun key l => Pairs.delete key l).
Proof. intros key w l Hl. by apply update_live. Qed.

Lemma turns_keep n keysToKeep :
  turns_as n
    (fun '(key, value) =>
       if bool_decide (key ∈ keysToKeep) then append n key value else ret tt)
    (keep_pair keysToKeep).
Proof.
  intros [key value] w l Hl. unfold keep_pair. simpl.
  destruct (bool_decide (key ∈ keysToKeep)).
  - by apply update_live.
  - unfold ret. by rewrite put_same.
Qed.

Lemma for_of_items n key items w l :
  store w !! n = Some l ->
  for_of items (fun item => append n key item) w
  = (Returned tt, put w n (append_items key items l)).
Proof. intros Hl. by rewrite (for_of_turns n _ _ (turns_items n key) items w l). Qed.

Section TurnsOfConstruction.

Context (Date_toString : Date -> string).

Lemma turns_create n :
  turns_as n
    (fun '(key, value) =>
       match value with
       | VUndefined => ret tt
       | _ =>
           if Array_isArray value then
             for_of (items_toString Date_toString value) (fun item =>
               append n key item)
           else set n key (value_toString Date_toString value)
       end)
    (create_turn Date_toString).
Proof.
  intros [key value] w l Hl. unfold create_turn. simpl.
  destruct value; simpl;
    try (by apply update_live);
    try (by apply for_of_items).
  unfold ret. by rewrite put_same.
Qed.

Lemma turns_add n :
  turns_as n
    (fun '(key, value) =>
       match value with
       | VUndefined => ret tt
       | _ =>
           if Array_isArray value then
             let* present := has n key in
             (if (length (items_toString Date_toString value) =? 0)%nat
                 || present
              then delete n key
              else ret tt) >>
             for_of (items_toString Date_toString value) (fun item =>
               append n key item)
           else set n key (value_toString Date_toString value)
       end)
    (add_turn Date_toString).
Proof.
  assert (arrays : forall key items w l, store w !! n = Some l ->
    (let* present := has n key in
     (if (length items =? 0)%nat || present
      then delete n key else ret tt) >>
     for_of items (fun item => append n key item)) w
    = (Returned tt,
       put w n (append_items key items
                  (if (length items =? 0)%nat || Pairs.has key l
                   then Pairs.delete key l else l)))).
  { intros key items w l Hl.
    rewrite (bind_returned _ _ _ _ _ (has_live w n l Hl key)).
    destruct ((length items =? 0)%nat || Pairs.has key l).
    - rewrite (bind_returned _ _ _ _ _ (turns_delete n key w l Hl)).
      rewrite (for_of_items n key items _ (Pairs.delete key l))
        by (by eapply put_lookup).
      by rewrite put_put.
    - unfold ret at 1. unfold bind at 1. by apply for_of_items. }
  intros [key value] w l Hl. unfold add_turn. simpl.
  destruct value; simpl;
    try (by apply update_live);
    try (by apply arrays).
  unfold ret. by rewrite put_same.
Qed.

End TurnsOfConstruction.

(** ** What each transform returns and leaves in the store *)

Lemma foldl_append_pair (acc xs : entries) :
  foldl (fun l e => append_pair e l) acc xs = acc ++ xs.
Proof.
  revert acc. induction xs as [|[k v] xs IH]; intros acc; simpl.
  - by rewrite app_nil_r.
  - rewrite IH. unfold append_pair, Pairs.append. simpl.
    by rewrite <- app_assoc.
Qed.

Lemma foldl_keep_pair keys (acc xs : entries) :
  foldl (fun l e => keep_pair keys e l) acc xs
  = acc ++ filter (fun e => e.1 ∈ keys) xs.
Proof.
  revert acc. induction xs as [|[k v] xs IH]; intros acc; simpl.
  - by rewrite app_nil_r.
  - rewrite IH, filter_cons. unfold keep_pair, Pairs.append. simpl.
    case_bool_decide; case_decide; try done.
    by rewrite <- app_assoc.
Qed.

Lemma filter_all {A} (P : A -> Prop) `{!forall x, Decision (P x)} (l : list A) :
  (forall x, x ∈ l -> P x) -> filter P l = l.
Proof.
  induction l as [|x l IH]; intros Hall; [done|].
  rewrite filter_cons_True by (apply Hall; left).
  rewrite IH; [done|]. intros y Hy. apply Hall. by right.
Qed.

Lemma foldl_delete keys (l : entries) :
  foldl (fun l key => Pairs.delete key l) l keys
  = filter (fun e => e.1 ∉ keys) l.
Proof.
  revert l. induction keys as [|k keys IH]; intros l; simpl.
  - symmetry. apply filter_all. intros e _. apply not_elem_of_nil.
  - rewrite IH. unfold Pairs.delete. rewrite list_filter_filter.
    apply list_filter_iff. intros e. rewrite not_elem_of_cons. tauto.
Qed.

Lemma append_items_app key items (l : entries) :
  append_items key items l = l ++ ((fun item => (key, item)) <$> items).
Proof.
  unfold append_items. revert l.
  induction items as [|item items IH]; intros l; simpl.
  - by rewrite app_nil_r.
  - rewrite IH. unfold Pairs.append. by rewrite <- app_assoc.
Qed.

Section Transforms.

Context (Date_toString : Date -> string).
Context (w : World) (params : loc) (l : entries).
Hypothesis live : store w !! params = Some l.

Lemma copySearchParams_run :
  copySearchParams params w = (Returned (length (store w)), allocated w l).
Proof.
  unfold copySearchParams.
  rewrite (bind_returned _ _ _ _ _ (new_run w)).
  rewrite (bind_returned _ _ _ _ _
             (read_live _ params l (allocated_old w [] _ _ live))).
  rewrite (bind_returned _ _ _ _ _
             (for_of_turns _ _ _ (turns_append _) l _ [] (allocated_new w []))).
  by rewrite put_allocated, foldl_append_pair.
Qed.

Lemma deleteSearchParams_run keysToDelete :
  deleteSearchParams params keysToDelete w
  = (Returned (length (store w)),
     allocated w (filter (fun e => e.1 ∉ keysToDelete) l)).
Proof.
  unfold deleteSearchParams.
  rewrite (bind_returned _ _ _ _ _ copySearchParams_run).
  rewrite (bind_returned _ _ _ _ _
             (for_of_turns _ _ _ (turns_delete _) keysToDelete _ l
                (allocated_new w l))).
  by rewrite put_allocated, foldl_delete.
Qed.

Lemma filterSearchParams_run keysToKeep :
  filterSearchParams params keysToKeep w
  = (Returned (length (store w)),
     allocated w (filter (fun e => e.1 ∈ keysToKeep) l)).
Proof.
  unfold filterSearchParams.
  rewrite (bind_returned _ _ _ _ _ (new_run w)).
  rewrite (bind_returned _ _ _ _ _
             (read_live _ params l (allocated_old w [] _ _ live))).
  rewrite (bind_returned _ _ _ _ _
             (for_of_turns _ _ _ (turns_keep _ keysToKeep) l _ []
                (allocated_new w []))).
  by rewrite put_allocated, foldl_keep_pair.
Qed.

Lemma addSearchParams_run paramsToAdd :
  addSearchParams Date_toString params paramsToAdd w
  = (Returned (length (store w)),
     allocated w (foldl (fun l e => add_turn Date_toString e l) l paramsToAdd)).
Proof.
  unfold addSearchParams.
  rewrite (bind_returned _ _ _ _ _ copySearchParams_run).
  rewrite (bind_returned _ _ _ _ _
             (for_of_turns _ _ _ (turns_add Date_toString _) paramsToAdd _ l
                (allocated_new w l))).
  by rewrite put_allocated.
Qed.

End Transforms.

Lemma createSearchParams_run Date_toString w params :
  createSearchParams Date_toString params w
  = (Returned (length (store w)),
     allocated w (foldl (fun l e => create_turn Date_toString e l) [] params)).
Proof.
  unfold createSearchParams.
  rewrite (bind_returned _ _ _ _ _ (new_run w)).
  rewrite (bind_returned _ _ _ _ _
             (for_of_turns _ _ _ (turns_create Date_toString _) params _ []
                (allocated_new w []))).
  by rewrite put_allocated.
Qed.

(** ** Deleting and keeping keys *)

Lemma getAll_filter (P : string * string -> Prop) `{!forall e, Decision (P e)}
    (Q : string -> Prop) key (l : entries) :
  (forall e, P e <-> Q e.1) -> Q key ->
  Pairs.getAll key (filter P l) = Pairs.getAll key l.
Proof.
  intros HPQ HQ. unfold Pairs.getAll. f_equal.
  rewrite list_filter_filter. apply list_filter_iff.
  intros e. rewrite HPQ. split; [tauto | intros <-; tauto].
Qed.

Lemma keys_filter (P : string * string -> Prop) `{!forall e, Decision (P e)}
    (Q : string -> Prop) key (l : entries) :
  (forall e, P e <-> Q e.1) ->
  key ∈ (filter P l).*1 <-> key ∈ l.*1 /\ Q key.
Proof.
  intros HPQ. rewrite !list_elem_of_fmap. split.
  - intros (e & -> & [He Hin]%list_elem_of_filter).
    apply HPQ in He. eauto.
  - intros [(e & -> & Hin) HQ]. exists e. split; [done|].
    apply list_elem_of_filter. split; [by apply HPQ | done].
Qed.

(** C9: [deleteSearchParams] leaves in the new collection exactly the
    pairs of the input whose key is not among the keys to delete, and
    [filterSearchParams] exactly those whose key is among the keys to keep,
    each as a subsequence of the input (relative order kept).  On keys this
    is set difference and set intersection, and every surviving key keeps
    all its values, in order. *)
Theorem delete_and_filter_exact w params l keys :
  store w !! params = Some l ->
  exists rest kept : entries,
    deleteSearchParams params keys w
    = (Returned (length (store w)), allocated w rest)
    /\ filterSearchParams params keys w
       = (Returned (length (store w)), allocated w kept)
    /\ rest = filter (fun e => e.1 ∉ keys) l
    /\ kept = filter (fun e => e.1 ∈ keys) l
    /\ rest `sublist_of` l
    /\ kept `sublist_of` l
    /\ (list_to_set rest.*1 : gset string)
       = list_to_set l.*1 ∖ list_to_set keys
    /\ (list_to_set kept.*1 : gset string)
       = list_to_set l.*1 ∩ list_to_set keys
    /\ (forall key, key ∉ keys ->
          Pairs.getAll key rest = Pairs.getAll key l)
    /\ (forall key, key ∈ keys ->
          Pairs.getAll key kept = Pairs.getAll key l).
Proof.
  intros live.
  exists (filter (fun e => e.1 ∉ keys) l), (filter (fun e => e.1 ∈ keys) l).
  split; [by apply deleteSearchParams_run|].
  split; [by apply filterSearchParams_run|].
  do 2 (split; [done|]).
  split; [apply sublist_filter|].
  split; [apply sublist_filter|].
  split; [|split; [|split]].
  - apply set_eq. intros key.
    rewrite elem_of_difference, !elem_of_list_to_set.
    by apply (keys_filter _ (fun k => k ∉ keys)).
  - apply set_eq. intros key.
    rewrite elem_of_intersection, !elem_of_list_to_set.
    by apply (keys_filter _ (fun k => k ∈ keys)).
  - intros key Hkey. by apply (getAll_filter _ (fun k => k ∉ keys)).
  - intros key Hkey. by apply (getAll_filter _ (fun k => k ∈ keys)).
Qed.


Lemma delete_and_filter_exact_witness :
  let l := [("page", "1"); ("tag", "x"); ("pageSize", "10"); ("tag", "y")] in
  exists rest kept : entries,
    deleteSearchParams 0 ["page"; "pageSize"] (world_of [l])
    = (Returned 1%nat, allocated (world_of [l]) rest)
    /\ filterSearchParams 0 ["page"; "pageSize"] (world_of [l])
       = (Returned 1%nat, allocated (world_of [l]) kept)
    /\ rest = [("tag", "x"); ("tag", "y")]
    /\ kept = [("page", "1"); ("pageSize", "10")].
Proof.
  intros l.
  destruct (delete_and_filter_exact (world_of [l]) 0%nat l
              ["page"; "pageSize"] eq_refl)
    as (rest & kept & Hd & Hf & Er & Ek & _).
  exists rest, kept. repeat split; assumption.
Defined.

(** ** Fresh results, untouched inputs *)

(** C8: each of [copySearchParams], [deleteSearchParams],
    [filterSearchParams], [addSearchParams] and [createSearchParams]
    returns an object that did not exist before the call, and leaves every
    earlier object of the store, the input among them, as it was.  The
    copy holds the pairs of the input in the same order, is another object
    than the input, and changing it leaves the input as it was. *)
Theorem transforms_return_fresh_collections
    Date_toString w params l keys mapping :
  store w !! params = Some l ->
  let fresh := length (store w) in
  store w !! fresh = None
  /\ fresh <> params
  /\ copySearchParams params w = (Returned fresh, allocated w l)
  /\ (exists l', deleteSearchParams params keys w
                 = (Returned fresh, allocated w l'))
  /\ (exists l', filterSearchParams params keys w
                 = (Returned fresh, allocated w l'))
  /\ (exists l', addSearchParams Date_toString params mapping w
                 = (Returned fresh, allocated w l'))
  /\ (exists l', createSearchParams Date_toString mapping w
                 = (Returned fresh, allocated w l'))
  /\ (forall l' q, q < length (store w) ->
        store (allocated w l') !! q = store w !! q)%nat
  /\ (forall l', store (allocated w l') !! params = Some l)
  /\ (forall f,
        (let* copy := copySearchParams params in
         update copy f >> read params) w
        = (Returned l, allocated w (f l))).
Proof.
  intros live fresh.
  assert (Hlt : (params < length (store w))%nat) by (by eapply lookup_lt_Some).
  split; [by apply lookup_ge_None_2|].
  split; [unfold fresh; lia|].
  split; [by apply copySearchParams_run|].
  split; [eexists; by apply deleteSearchParams_run|].
  split; [eexists; by apply filterSearchParams_run|].
  split; [eexists; by apply addSearchParams_run|].
  split; [eexists; by apply createSearchParams_run|].
  split; [intros l' q Hq; unfold allocated; simpl; by rewrite lookup_app_l|].
  split; [intros l'; by apply allocated_old|].
  intros f.
  rewrite (bind_returned _ _ _ _ _ (copySearchParams_run w params l live)).
  rewrite (bind_returned _ _ _ _ _
             (update_live _ _ _ (allocated_new w l) f)).
  fold (put (allocated w l) (length (store w)) (f l)).
  rewrite put_allocated.
  by apply read_live, allocated_old.
Qed.

Lemma transforms_return_fresh_collections_witness :
  let w := world_of [[("a", "1"); ("b", "2"); ("a", "3")]] in
  copySearchParams 0 w
  = (Returned 1%nat, allocated w [("a", "1"); ("b", "2"); ("a", "3")]).
Proof.
  intros w.
  apply (transforms_return_fresh_collections (fun _ => "") w 0%nat
           [("a", "1"); ("b", "2"); ("a", "3")] [] [] eq_refl).
Defined.

(** ** Merging a sequence value *)

Lemma delete_absent key (l : entries) :
  key ∉ l.*1 -> Pairs.delete key l = l.
Proof.
  intros Hkey. apply filter_all. intros e He Heq.
  apply Hkey. rewrite <- Heq. apply list_elem_of_fmap. eauto.
Qed.

Lemma keys_delete key k (l : entries) :
  k ∈ (Pairs.delete key l).*1 <-> k ∈ l.*1 /\ k <> key.
Proof. by apply (keys_filter _ (fun k => k <> key)). Qed.

Lemma getAll_delete key (l : entries) :
  Pairs.getAll key (Pairs.delete key l) = [].
Proof. apply Pairs_getAll_nil. rewrite keys_delete. tauto. Qed.

Lemma getAll_delete_other key k (l : entries) :
  k <> key -> Pairs.getAll k (Pairs.delete key l) = Pairs.getAll k l.
Proof. intros Hk. by apply (getAll_filter _ (fun k => k <> key)). Qed.

Lemma getAll_app key (l1 l2 : entries) :
  Pairs.getAll key (l1 ++ l2) = Pairs.getAll key l1 ++ Pairs.getAll key l2.
Proof. unfold Pairs.getAll. by rewrite filter_app, fmap_app. Qed.

Lemma getAll_items key items :
  Pairs.getAll key ((fun item => (key, item)) <$> items) = items.
Proof.
  unfold Pairs.getAll. induction items as [|item items IH]; [done|].
  rewrite fmap_cons, filter_cons_True by done.
  rewrite fmap_cons. simpl. by f_equal.
Qed.

Lemma getAll_items_other key k items :
  k <> key -> Pairs.getAll k ((fun item => (key, item)) <$> items) = [].
Proof.
  intros Hk. apply Pairs_getAll_nil.
  rewrite list_elem_of_fmap. intros ([k' v] & -> & Hin).
  apply list_elem_of_fmap in Hin as (item & [= -> ->] & _). done.
Qed.

Lemma add_turn_sequence Date_toString key value (l : entries) :
  Array_isArray value = true ->
  add_turn Date_toString (key, value) l
  = Pairs.delete key l
    ++ ((fun item => (key, item)) <$> items_toString Date_toString value).
Proof.
  intros Harr. unfold add_turn. simpl. rewrite Harr.
  assert (E : (if (length (items_toString Date_toString value) =? 0)%nat
                  || Pairs.has key l
               then Pairs.delete key l else l) = Pairs.delete key l).
  { destruct (length _ =? 0)%nat; [done|]. simpl.
    unfold Pairs.has. case_bool_decide; [done|].
    symmetry. by apply delete_absent. }
  rewrite E, append_items_app. by destruct value.
Qed.

(** Merging one sequence value, for any key and any sequence: all earlier
    pairs of the key go, and the items follow the remaining pairs. *)
Lemma addSearchParams_sequence Date_toString w params l key value :
  store w !! params = Some l ->
  Array_isArray value = true ->
  addSearchParams Date_toString params [(key, value)] w
  = (Returned (length (store w)),
     allocated w (Pairs.delete key l
                  ++ ((fun item => (key, item))
                        <$> items_toString Date_toString value))).
Proof.
  intros live Harr. rewrite (addSearchParams_run _ _ _ _ live). simpl.
  by rewrite add_turn_sequence.
Qed.

(** C7: whatever pairs of key b a collection holds, adding the sequence
    3, 4 under b gives a new collection in which b has exactly the two
    values 3 and 4, after the pairs of the other keys, which stay as they
    were; adding the empty sequence under b gives a new collection with no
    pair of key b. *)
Theorem addSearchParams_replaces_sequence Date_toString w params l :
  store w !! params = Some l ->
  (exists l',
     addSearchParams Date_toString params
       [("b", VNumbers [int_number 3; int_number 4])] w
     = (Returned (length (store w)), allocated w l')
     /\ Pairs.getAll "b" l' = ["3"; "4"]
     /\ l' = Pairs.delete "b" l ++ [("b", "3"); ("b", "4")])
  /\ (exists l',
     addSearchParams Date_toString params [("b", VNumbers [])] w
     = (Returned (length (store w)), allocated w l')
     /\ Pairs.has "b" l' = false
     /\ Pairs.getAll "b" l' = []
     /\ l' = Pairs.delete "b" l).
Proof.
  intros live. split.
  - eexists. split; [by apply addSearchParams_sequence|].
    split; [|done].
    by rewrite getAll_app, getAll_delete, getAll_items.
  - eexists. split; [by apply addSearchParams_sequence|].
    simpl. rewrite app_nil_r.
    split; [|split; [apply getAll_delete | done]].
    unfold Pairs.has. apply bool_decide_eq_false_2.
    rewrite keys_delete. tauto.
Qed.

Lemma addSearchParams_replaces_sequence_witness :
  let w := world_of [[("b", "1"); ("c", "0"); ("b", "2")]] in
  addSearchParams (fun _ => "") 0
    [("b", VNumbers [int_number 3; int_number 4])] w
  = (Returned 1%nat, allocated w [("c", "0"); ("b", "3"); ("b", "4")])
  /\ addSearchParams (fun _ => "") 0 [("b", VNumbers [])] w
     = (Returned 1%nat, allocated w [("c", "0")]).
Proof.
  intros w.
  destruct (addSearchParams_replaces_sequence (fun _ => "") w 0%nat
              [("b", "1"); ("c", "0"); ("b", "2")] eq_refl)
    as [(l1 & H1 & _ & ->) (l2 & H2 & _ & _ & ->)].
  split; assumption.
Defined.

(** ** Construction, and the way back to a plain object *)

Lemma keys_set key value k (l : entries) :
  k ∈ (Pairs.set key value l).*1 <-> k ∈ l.*1 \/ k = key.
Proof.
  induction l as [|[k0 v0] l IH]; simpl.
  - rewrite list_elem_of_singleton. split; [by right | intros [[]%not_elem_of_nil | ?]; done].
  - destruct (decide (k0 = key)) as [->|He].
    + rewrite fmap_cons, !elem_of_cons, keys_delete. simpl.
      destruct (decide (k = key)); tauto.
    + rewrite fmap_cons, !elem_of_cons, IH. simpl. tauto.
Qed.

Lemma getAll_set_other key value k (l : entries) :
  k <> key -> Pairs.getAll k (Pairs.set key value l) = Pairs.getAll k l.
Proof.
  intros Hk. induction l as [|e l IH]; simpl.
  - apply Pairs_getAll_nil. simpl. rewrite list_elem_of_singleton. done.
  - unfold Pairs.getAll in *. destruct (decide (e.1 = key)) as [He|He].
    + rewrite filter_cons_False by (simpl; congruence).
      rewrite filter_cons_False by congruence.
      by apply getAll_delete_other.
    + rewrite !filter_cons. case_decide; [|done].
      rewrite !fmap_cons. by f_equal.
Qed.

Section Creation.

Context (Date_toString : Date -> string).

Lemma keys_create_turn key value k (l : entries) :
  k ∈ (create_turn Date_toString (key, value) l).*1 ->
  k ∈ l.*1 \/ (k = key /\ value <> VUndefined).
Proof.
  unfold create_turn. simpl.
  destruct value; simpl; try tauto;
    rewrite ?keys_set, ?append_items_app, ?fmap_app, ?elem_of_app;
    (intros [?|Hk]; [by left | right; split; [|done]]);
    try done;
    apply list_elem_of_fmap in Hk as ([k' v] & -> & Hin);
    by apply list_elem_of_fmap in Hin as (item & [= -> ->] & _).
Qed.

Lemma getAll_create_turn_other key value k (l : entries) :
  k <> key ->
  Pairs.getAll k (create_turn Date_toString (key, value) l)
  = Pairs.getAll k l.
Proof.
  intros Hk. unfold create_turn. simpl.
  destruct value; simpl; try done;
    try (by apply getAll_set_other);
    by rewrite append_items_app, getAll_app, getAll_items_other, app_nil_r.
Qed.


Lemma keys_created params acc k :
  k ∈ (created Date_toString params acc).*1 ->
  k ∈ acc.*1 \/ exists value, (k, value) ∈ params /\ value <> VUndefined.
Proof.
  revert acc. induction params as [|[key value] params IH]; intros acc; simpl.
  - by left.
  - intros [Hk|(v & Hin & Hv)]%IH.
    + apply keys_create_turn in Hk as [?|[-> ?]]; [by left|].
      right. exists value. split; [left | done].
    + right. exists v. split; [by right | done].
Qed.

Lemma getAll_created_other params acc k :
  k ∉ params.*1 ->
  Pairs.getAll k (created Date_toString params acc) = Pairs.getAll k acc.
Proof.
  revert acc. induction params as [|[key value] params IH]; intros acc; simpl.
  - done.
  - rewrite not_elem_of_cons. intros [Hk Hrest].
    rewrite IH by done. by apply getAll_create_turn_other.
Qed.


End Creation.


(** * Further properties of the extractors *)

Lemma Pairs_get_first key s (before after : entries) :
  key ∉ before.*1 ->
  Pairs.get key (before ++ (key, s) :: after) = Some s.
Proof.
  intros Hkey. induction before as [|[k v] before IH]; simpl.
  - rewrite Pairs_get_cons. simpl. by rewrite decide_True.
  - apply not_elem_of_cons in Hkey as [Hk Hrest]. simpl in Hk.
    rewrite Pairs_get_cons. simpl. rewrite decide_False by congruence.
    by apply IH.
Qed.

Lemma getString_empty w params l key :
  store w !! params = Some l ->
  Pairs.get key l = None \/ Pairs.get key l = Some "" ->
  getString params key w = (Returned None, w).
Proof.
  intros live E. unfold getString.
  rewrite (bind_returned _ _ _ _ _ (get_live w params l live key)).
  by destruct E as [-> | ->].
Qed.

(** X1: only the first pair of a key counts for [getString]: its value is
    returned when it is not empty, and when it is empty the result is
    absent even if later pairs of the key hold a value. *)
Theorem getString_first_pair_decides w params key s (before after : entries) :
  store w !! params = Some (before ++ (key, s) :: after) ->
  key ∉ before.*1 ->
  getString params key w
  = (Returned (if decide (s = "") then None else Some s), w).
Proof.
  intros live Hkey.
  pose proof (Pairs_get_first key s before after Hkey) as E.
  destruct (decide (s = "")) as [->|Hs].
  - apply (getString_empty _ _ _ _ live). by right.
  - by apply (getString_value _ _ _ live).
Qed.

Lemma getString_first_pair_decides_witness :
  let w := world_of [[("b", "1"); ("a", ""); ("a", "later")]] in
  getString 0 "a" w = (Returned None, w).
Proof.
  intros w.
  apply (getString_first_pair_decides w 0%nat "a" "" [("b", "1")]
           [("a", "later")] eq_refl).
  apply not_elem_of_cons. split; [discriminate | apply not_elem_of_nil].
Defined.

(** X2: [getInt] and [getFloat] never print and never raise on a
    collection: a first value that is not empty is returned as the parser
    reads it, so a value that starts with no numeric character comes back
    as the number NaN, not as absent. *)
Theorem numeric_scalars_return_NaN w params l key c r :
  store w !! params = Some l ->
  Pairs.get key l = Some (String c r) ->
  getInt params key w = (Returned (Some (parseInt (String c r))), w)
  /\ getFloat params key w = (Returned (Some (parseFloat (String c r))), w)
  /\ (Lex.starts_no_number c = true ->
      getInt params key w = (Returned (Some NaN), w)
      /\ getFloat params key w = (Returned (Some NaN), w)).
Proof.
  intros live E.
  rewrite (getInt_value _ _ _ live _ _ E), (getFloat_value _ _ _ live _ _ E)
    by done.
  split; [done|]. split; [done|].
  intros Hc. by destruct (parse_no_number c r Hc) as [-> ->].
Qed.

Lemma numeric_scalars_return_NaN_witness :
  let w := world_of [[("page", "first")]] in
  getInt 0 "page" w = (Returned (Some NaN), w)
  /\ getFloat 0 "page" w = (Returned (Some NaN), w).
Proof.
  intros w.
  apply (numeric_scalars_return_NaN w 0%nat [("page", "first")] "page"
           "f" "irst" eq_refl eq_refl).
  reflexivity.
Defined.

(** X3: dates are never validated.  For a first value that is not empty
    [getDate] returns the date the runtime makes of the text, an invalid
    date when the runtime cannot read it, and never absent; [getDateArray]
    does so for every value of a key that occurs, empty values included.
    Neither prints. *)
Theorem dates_are_not_validated Date_parse w params l key :
  store w !! params = Some l ->
  (forall s, Pairs.get key l = Some s -> s <> "" ->
     getDate Date_parse params key w
     = (Returned (Some (mkDate (Date_parse s))), w))
  /\ (key ∈ l.*1 ->
      getDateArray Date_parse params key w
      = (Returned (Some ((fun s => mkDate (Date_parse s))
                           <$> Pairs.getAll key l)), w)).
Proof.
  intros live. split.
  - intros s E Hs. by apply (getDate_value Date_parse w params l live).
  - intros Hin. unfold getDateArray.
    rewrite (bind_returned _ _ _ _ _ (getAll_live w params l live key)).
    destruct (Pairs.getAll key l) as [|s a] eqn:E;
      [by apply Pairs_getAll_nil in E|].
    change (length (s :: a) =? 0)%nat with false. cbv iota.
    unfold try_catch.
    by rewrite (bind_returned _ _ _ _ _
                  (Array_map_pure (new_Date Date_parse) (s :: a) w)).
Qed.

Lemma dates_are_not_validated_witness :
  let w := world_of [[("from", "yesterday"); ("from", "")]] in
  getDate (fun _ => None) 0 "from" w = (Returned (Some (mkDate None)), w)
  /\ getDateArray (fun _ => None) 0 "from" w
     = (Returned (Some [mkDate None; mkDate None]), w).
Proof.
  intros w.
  destruct (dates_are_not_validated (fun _ => None) w 0%nat
              [("from", "yesterday"); ("from", "")] "from" eq_refl)
    as [Hd Ha].
  split.
  - apply (Hd "yesterday"); [reflexivity | discriminate].
  - apply Ha. apply list_elem_of_here.
Defined.

Lemma Array_map_parseBoolean_valid (a : list string) w :
  (forall s, s ∈ a -> s = "true" \/ s = "false") ->
  Array_map parseBoolean a w
  = (Returned ((fun s => bool_decide (s = "true")) <$> a), w).
Proof.
  induction a as [|x a IH]; intros Hall; [done|].
  simpl. unfold bind at 1, parseBoolean at 1.
  assert (E : bool_decide (x <> "true") && bool_decide (x <> "false") = false).
  { destruct (Hall x) as [-> | ->]; [left | done | done]. }
  rewrite E. unfold ret at 1. unfold bind.
  rewrite IH; [done|]. intros s Hs. apply Hall. by right.
Qed.

Lemma getStringArray_values w params l key :
  store w !! params = Some l ->
  Pairs.getAll key l <> [] ->
  getStringArray params key w = (Returned (Some (Pairs.getAll key l)), w).
Proof.
  intros live Hne. unfold getStringArray.
  rewrite (bind_returned _ _ _ _ _ (getAll_live w params l live key)).
  by destruct (Pairs.getAll key l).
Qed.

(** X4: an empty value counts as missing for the scalar extractors but as
    an element for the array extractors.  When the first value of a key is
    the empty string, [getString] and [getBoolean] return absent and print
    nothing, while [getStringArray] returns all values with the empty one
    first, [getIntArray] returns NaN for it, and [getBooleanArray] takes it
    for a bad element: it prints one line and returns absent. *)
Theorem empty_value_scalar_and_array w params l key rest :
  store w !! params = Some l ->
  Pairs.getAll key l = "" :: rest ->
  getString params key w = (Returned None, w)
  /\ getBoolean params key w = (Returned None, w)
  /\ getStringArray params key w = (Returned (Some ("" :: rest)), w)
  /\ getIntArray params key w
     = (Returned (Some (NaN :: (parseInt <$> rest))), w)
  /\ getBooleanArray params key w
     = (Returned None,
        logged w (parsing_message key) (Error boolean_message)).
Proof.
  intros live E.
  assert (Eg : Pairs.get key l = Some "") by (by rewrite Pairs_get_head, E).
  split; [apply (getString_empty _ _ _ _ live); by right|].
  split; [apply (getBoolean_absent _ _ _ live); by right|].
  split; [rewrite (getStringArray_values _ _ _ _ live); by rewrite E|].
  split; [rewrite (getIntArray_values _ _ _ live); by rewrite E|].
  apply (getBooleanArray_bad_element _ _ _ live key "");
    [rewrite E; left | done | done].
Qed.

Lemma empty_value_scalar_and_array_witness :
  let w := world_of [[("flag", ""); ("flag", "true")]] in
  getString 0 "flag" w = (Returned None, w)
  /\ getBoolean 0 "flag" w = (Returned None, w)
  /\ getStringArray 0 "flag" w = (Returned (Some [""; "true"]), w)
  /\ getIntArray 0 "flag" w = (Returned (Some [NaN; NaN]), w)
  /\ getBooleanArray 0 "flag" w
     = (Returned None,
        logged w (parsing_message "flag") (Error boolean_message)).
Proof.
  intros w.
  apply (empty_value_scalar_and_array w 0%nat
           [("flag", ""); ("flag", "true")] "flag" ["true"] eq_refl eq_refl).
Defined.

(** X5: [getBooleanArray] is all or nothing.  For a key that occurs, it
    returns the array of booleans, printing nothing, when every value is
    the text true or the text false; as soon as one value is neither, it
    returns absent and prints exactly one line, whatever the number of bad
    values. *)
Theorem getBooleanArray_all_or_nothing w params l key :
  store w !! params = Some l ->
  key ∈ l.*1 ->
  ((forall s, s ∈ Pairs.getAll key l -> s = "true" \/ s = "false") ->
   getBooleanArray params key w
   = (Returned (Some ((fun s => bool_decide (s = "true"))
                        <$> Pairs.getAll key l)), w))
  /\ (forall s, s ∈ Pairs.getAll key l -> s <> "true" -> s <> "false" ->
      getBooleanArray params key w
      = (Returned None,
         logged w (parsing_message key) (Error boolean_message))).
Proof.
  intros live Hin. split.
  - intros Hall. unfold getBooleanArray.
    rewrite (bind_returned _ _ _ _ _ (getAll_live w params l live key)).
    destruct (Pairs.getAll key l) as [|s a] eqn:E;
      [by apply Pairs_getAll_nil in E|].
    change (length (s :: a) =? 0)%nat with false. cbv iota.
    unfold try_catch.
    by rewrite (bind_returned _ _ _ _ _
                  (Array_map_parseBoolean_valid (s :: a) w Hall)).
  - intros s. by apply getBooleanArray_bad_element.
Qed.

Lemma getBooleanArray_all_or_nothing_witness :
  let w := world_of [[("on", "true"); ("x", "1"); ("on", "false")]] in
  getBooleanArray 0 "on" w = (Returned (Some [true; false]), w).
Proof.
  intros w.
  apply (getBooleanArray_all_or_nothing w 0%nat
           [("on", "true"); ("x", "1"); ("on", "false")] "on" eq_refl).
  - apply list_elem_of_here.
  - intros s Hs. simpl in Hs.
    apply elem_of_cons in Hs as [->|Hs]; [by left|].
    apply list_elem_of_singleton in Hs as ->. by right.
Defined.

(** * Pagination and ordering *)

Lemma getString_returns w params l key :
  store w !! params = Some l ->
  exists o, getString params key w = (Returned o, w)
            /\ o <> Some ""
            /\ (o = None -> Pairs.get key l = None \/ Pairs.get key l = Some "")
            /\ (forall s, o = Some s -> Pairs.get key l = Some s).
Proof.
  intros live. destruct (Pairs.get key l) as [s|] eqn:E.
  - destruct (decide (s = "")) as [->|Hs].
    + exists None. split; [apply (getString_empty _ _ _ _ live); by right|].
      split; [done|]. split; [by right | done].
    + exists (Some s). split; [by apply (getString_value _ _ _ live)|].
      split; [congruence|]. split; [done | done].
  - exists None. split; [apply (getString_empty _ _ _ _ live); by left|].
    split; [done|]. split; [by left | done].
Qed.

Lemma getInt_returns w params l key :
  store w !! params = Some l ->
  exists o, getInt params key w = (Returned o, w).
Proof.
  intros live. destruct (Pairs.get key l) as [s|] eqn:E.
  - destruct (decide (s = "")) as [->|Hs].
    + exists None. unfold getInt.
      by rewrite (bind_returned _ _ _ _ _ (get_live w params l live key)), E.
    + eexists. by apply (getInt_value _ _ _ live).
  - exists None. unfold getInt.
    by rewrite (bind_returned _ _ _ _ _ (get_live w params l live key)), E.
Qed.

(** X6: [getPagination] reads its two fields independently, each one as
    [getInt] reads the keys page and pageSize, and never prints: a missing
    or unreadable page does not affect pageSize, and conversely. *)
Theorem getPagination_fields w params l :
  store w !! params = Some l ->
  exists page pageSize,
    getInt params "page" w = (Returned page, w)
    /\ getInt params "pageSize" w = (Returned pageSize, w)
    /\ getPagination params w = (Returned (mkPagination page pageSize), w).
Proof.
  intros live.
  destruct (getInt_returns w params l "page" live) as [p Hp].
  destruct (getInt_returns w params l "pageSize" live) as [ps Hps].
  exists p, ps. split; [done|]. split; [done|].
  unfold getPagination, try_catch.
  by rewrite (bind_returned _ _ _ _ _ Hp), (bind_returned _ _ _ _ _ Hps).
Qed.

Lemma getPagination_fields_witness :
  let w := world_of [[("page", "x"); ("pageSize", "10")]] in
  getPagination 0 w
  = (Returned (mkPagination (Some NaN) (Some (int_number 10))), w).
Proof.
  intros w.
  destruct (getPagination_fields w 0%nat [("page", "x"); ("pageSize", "10")]
              eq_refl) as (p & ps & Hp & Hps & H).
  rewrite H. injection Hp as <-. injection Hps as <-. reflexivity.
Defined.

(** X7: when the first value of orderDirection is missing, empty, asc or
    desc, [getOrdering] prints nothing and returns the two fields as
    [getString] reads them. *)
Theorem getOrdering_passes_valid w params l :
  store w !! params = Some l ->
  Pairs.get "orderDirection" l = None
  \/ Pairs.get "orderDirection" l = Some ""
  \/ Pairs.get "orderDirection" l = Some "asc"
  \/ Pairs.get "orderDirection" l = Some "desc" ->
  exists by_ direction,
    getString params "orderBy" w = (Returned by_, w)
    /\ getString params "orderDirection" w = (Returned direction, w)
    /\ getOrdering params w = (Returned (mkOrdering by_ direction), w).
Proof.
  intros live Hdir.
  destruct (getString_returns w params l "orderBy" live) as (ob & Hob & _).
  destruct (getString_returns w params l "orderDirection" live)
    as (od & Hod & _ & Hnone & Hsome).
  exists ob, od. split; [done|]. split; [done|].
  unfold getOrdering, try_catch.
  rewrite (bind_returned _ _ _ _ _ Hob), (bind_returned _ _ _ _ _ Hod).
  destruct od as [d|]; [|done].
  specialize (Hsome d eq_refl).
  assert (d = "asc" \/ d = "desc") as [-> | ->]; [|done|done].
  destruct Hdir as [E|[E|[E|E]]]; rewrite E in Hsome; try discriminate.
  - injection Hsome as <-.
    destruct (getString_returns w params l "orderDirection" live)
      as (od' & Hod' & Hne & _).
    rewrite Hod in Hod'. injection Hod' as <-. done.
  - injection Hsome as <-. by left.
  - injection Hsome as <-. by right.
Qed.

Lemma getOrdering_passes_valid_witness :
  let w := world_of [[("orderBy", "name"); ("orderDirection", "asc")]] in
  getOrdering 0 w = (Returned (mkOrdering (Some "name") (Some "asc")), w).
Proof.
  intros w.
  destruct (getOrdering_passes_valid w 0%nat
              [("orderBy", "name"); ("orderDirection", "asc")] eq_refl)
    as (ob & od & Hob & Hod & H).
  - right. right. left. reflexivity.
  - rewrite H. injection Hob as <-. injection Hod as <-. reflexivity.
Defined.

(** X8: whatever the collection holds, [getOrdering] returns normally, the
    direction it returns is absent, asc or desc, and it leaves the store
    as it was. *)
Theorem getOrdering_direction_is_valid w params l :
  store w !! params = Some l ->
  exists o w',
    getOrdering params w = (Returned o, w')
    /\ (orderDirection o = None \/ orderDirection o = Some "asc"
        \/ orderDirection o = Some "desc")
    /\ store w' = store w.
Proof.
  intros live.
  destruct (getString_returns w params l "orderBy" live) as (ob & Hob & _).
  destruct (getString_returns w params l "orderDirection" live)
    as (od & Hod & _).
  unfold getOrdering, try_catch.
  rewrite (bind_returned _ _ _ _ _ Hob), (bind_returned _ _ _ _ _ Hod).
  destruct (bool_decide (od <> None) && bool_decide (od <> Some "asc")
            && bool_decide (od <> Some "desc")) eqn:E.
  - eexists _, _. split; [done|]. split; [by left | done].
  - eexists _, _. split; [done|]. split; [|done]. simpl.
    apply andb_false_iff in E as [E|E];
      [apply andb_false_iff in E as [E|E]|];
      apply bool_decide_eq_false in E; apply dec_stable in E; tauto.
Qed.

Lemma getOrdering_direction_is_valid_witness :
  exists o w',
    getOrdering 0 (world_of [[("orderDirection", "up")]]) = (Returned o, w')
    /\ (orderDirection o = None \/ orderDirection o = Some "asc"
        \/ orderDirection o = Some "desc")
    /\ store w' = [[("orderDirection", "up")]].
Proof.
  apply (getOrdering_direction_is_valid
           (world_of [[("orderDirection", "up")]]) 0%nat
           [("orderDirection", "up")] eq_refl).
Defined.

(** * Reading never writes *)

Lemma keeps_store_ret {A} (a : A) : keeps_store (ret a).
Proof. done. Qed.

Lemma keeps_store_throw {A} error : keeps_store (@throw A error).
Proof. done. Qed.

Lemma keeps_store_console_error message error :
  keeps_store (console_error message error).
Proof. done. Qed.

Lemma keeps_store_bind {A B} (m : Eff A) (k : A -> Eff B) :
  keeps_store m -> (forall a, keeps_store (k a)) -> keeps_store (bind m k).
Proof.
  intros Hm Hk w. unfold bind. specialize (Hm w).
  destruct (m w) as [[a|error] w']; simpl in *; [|done].
  by rewrite Hk.
Qed.

Lemma keeps_store_try_catch {A} (body : Eff A) handler :
  keeps_store body -> (forall error, keeps_store (handler error)) ->
  keeps_store (try_catch body handler).
Proof.
  intros Hb Hh w. unfold try_catch. specialize (Hb w).
  destruct (body w) as [[a|error] w']; simpl in *; [done|].
  by rewrite Hh.
Qed.

Lemma keeps_store_read this : keeps_store (read this).
Proof. intros w. unfold read. by destruct (store w !! this). Qed.

Lemma keeps_store_Array_map {A B} (f : A -> Eff B) a :
  (forall x, keeps_store (f x)) -> keeps_store (Array_map f a).
Proof.
  intros Hf. induction a as [|x a IH]; [done|]. simpl.
  apply keeps_store_bind; [done|]. intros y.
  apply keeps_store_bind; [done|]. intros ys. done.
Qed.

Lemma keeps_store_parseBoolean s : keeps_store (parseBoolean s).
Proof. unfold parseBoolean. by destruct (_ && _). Qed.

Create HintDb keeps_store.
#[local] Hint Resolve keeps_store_ret keeps_store_throw
  keeps_store_console_error keeps_store_read keeps_store_parseBoolean
  : keeps_store.

Ltac solve_keeps_store :=
  repeat first
    [ progress intros
    | apply keeps_store_bind
    | apply keeps_store_try_catch
    | apply keeps_store_Array_map
    | solve [auto with keeps_store]
    | match goal with
      | |- keeps_store (match ?x with _ => _ end) => destruct x
      | |- keeps_store (if ?b then _ else _) => destruct b
      end ].

(** X9: no extractor ever changes a collection.  In every world, whether
    the call returns, prints or raises, each of the ten typed extractors,
    [getPagination] and [getOrdering] leaves the store as it was. *)
Theorem extractors_never_write Date_parse params key :
  keeps_store (getString params key)
  /\ keeps_store (getInt params key)
  /\ keeps_store (getFloat params key)
  /\ keeps_store (getBoolean params key)
  /\ keeps_store (getDate Date_parse params key)
  /\ keeps_store (getStringArray params key)
  /\ keeps_store (getIntArray params key)
  /\ keeps_store (getFloatArray params key)
  /\ keeps_store (getBooleanArray params key)
  /\ keeps_store (getDateArray Date_parse params key)
  /\ keeps_store (getPagination params)
  /\ keeps_store (getOrdering params).
Proof.
  unfold getString, getInt, getFloat, getBoolean, getDate, getStringArray,
    getIntArray, getFloatArray, getBooleanArray, getDateArray, getPagination,
    getOrdering, getInt, getString, get, getAll.
  repeat split; solve_keeps_store.
Qed.

(** * Conversion to a plain object *)

Lemma property_of_snoc_same keysToArray (pre : entries) key value :
  property_of keysToArray (pre ++ [(key, value)]) key
  = Some (if bool_decide (key ∈ keysToArray)
          then OArray (Pairs.getAll key pre ++ [value])
          else OString value).
Proof.
  unfold property_of. rewrite getAll_app.
  change (Pairs.getAll key [(key, value)])
    with (snd <$> filter (fun e : string * string => e.1 = key) [(key, value)]).
  rewrite filter_cons_True by done. simpl.
  destruct (bool_decide (key ∈ keysToArray)).
  - by destruct (Pairs.getAll key pre).
  - by rewrite last_snoc.
Qed.

Lemma property_of_snoc_other keysToArray (pre : entries) k value key :
  key <> k ->
  property_of keysToArray (pre ++ [(k, value)]) key
  = property_of keysToArray pre key.
Proof.
  intros Hk. unfold property_of. rewrite getAll_app.
  change (Pairs.getAll key [(k, value)])
    with (snd <$> filter (fun e : string * string => e.1 = key) [(k, value)]).
  rewrite filter_cons_False by (simpl; congruence).
  by rewrite app_nil_r.
Qed.

(** The loop of [searchParamsToObject], started on an object that holds
    what the pairs [pre] make, over pairs that meet no inherited name. *)
Lemma searchParamsToObject_loop keysToArray w (l pre : entries)
    (object : gmap string ObjectValue) :
  (forall key, object !! key = property_of keysToArray pre key) ->
  "__proto__" ∉ l.*1 ->
  (forall key, key ∈ l.*1 -> key ∈ keysToArray ->
     key ∉ Object_prototype_names) ->
  exists object',
    for_of_with l (searchParamsToObject_step keysToArray) object w
    = (Returned object', w)
    /\ forall key, object' !! key = property_of keysToArray (pre ++ l) key.
Proof.
  revert pre object.
  induction l as [|[k v] l IH]; intros pre object Hobj Hproto Hnames.
  - exists object. split; [done|]. intros key. by rewrite app_nil_r.
  - simpl in Hproto. apply not_elem_of_cons in Hproto as [Hk Hproto].
    assert (Hstep : exists object1,
      searchParamsToObject_step keysToArray (k, v) object w
      = (Returned object1, w)
      /\ forall key, object1 !! key
                     = property_of keysToArray (pre ++ [(k, v)]) key).
    { unfold searchParamsToObject_step.
      pose proof (Hobj k) as Hobjk. unfold property_of in Hobjk.
      destruct (bool_decide (k ∈ keysToArray)) eqn:Harr.
      - apply bool_decide_eq_true in Harr.
        assert (k ∉ Object_prototype_names) as Hn
          by (apply Hnames; [left | done]).
        destruct (Pairs.getAll k pre) as [|s a] eqn:Eall.
        + rewrite Hobjk. rewrite bool_decide_eq_false_2 by done.
          eexists. split; [done|]. intros key.
          destruct (decide (key = k)) as [->|Hne].
          * rewrite lookup_insert_eq, property_of_snoc_same, Eall.
            by rewrite bool_decide_eq_true_2.
          * rewrite lookup_insert_ne by done.
            by rewrite property_of_snoc_other.
        + rewrite Hobjk. eexists. split; [done|]. intros key.
          destruct (decide (key = k)) as [->|Hne].
          * rewrite lookup_insert_eq, property_of_snoc_same, Eall.
            by rewrite bool_decide_eq_true_2.
          * rewrite lookup_insert_ne by done.
            by rewrite property_of_snoc_other.
      - rewrite bool_decide_eq_false_2 by (simpl in Hk; congruence).
        eexists. split; [done|]. intros key.
        destruct (decide (key = k)) as [->|Hne].
        * by rewrite lookup_insert_eq, property_of_snoc_same, Harr.
        * rewrite lookup_insert_ne by done.
          by rewrite property_of_snoc_other. }
    destruct Hstep as (object1 & Hrun & Hobj1).
    destruct (IH (pre ++ [(k, v)]) object1 Hobj1 Hproto) as (object' & Hr & Ho).
    { intros key Hin. apply Hnames. by right. }
    exists object'. split.
    + simpl. by rewrite (bind_returned _ _ _ _ _ Hrun).
    + intros key. rewrite Ho. by rewrite <- app_assoc.
Qed.

(** X10: on a collection whose keys meet no name inherited from
    [Object.prototype], [searchParamsToObject] returns an object that
    holds, under an array key that occurs, the array of all its values in
    order; under another key that occurs, its last value; and nothing
    under a key that does not occur.  It prints nothing and changes
    nothing. *)
Theorem searchParamsToObject_properties w params l keysToArray :
  store w !! params = Some l ->
  "__proto__" ∉ l.*1 ->
  (forall key, key ∈ l.*1 -> key ∈ keysToArray ->
     key ∉ Object_prototype_names) ->
  exists object,
    searchParamsToObject params keysToArray w = (Returned object, w)
    /\ (forall key, key ∉ l.*1 -> object !! key = None)
    /\ (forall key, key ∈ l.*1 -> key ∈ keysToArray ->
          object !! key = Some (OArray (Pairs.getAll key l)))
    /\ (forall key, key ∈ l.*1 -> key ∉ keysToArray ->
          exists value, last (Pairs.getAll key l) = Some value
                        /\ object !! key = Some (OString value)).
Proof.
  intros live Hproto Hnames.
  destruct (searchParamsToObject_loop keysToArray w l [] ∅)
    as (object & Hrun & Hobj); [|done|done|].
  { intros key. unfold property_of. rewrite lookup_empty.
    by case_bool_decide. }
  exists object. split.
  - unfold searchParamsToObject, iterate.
    by rewrite (bind_returned _ _ _ _ _ (read_live _ _ _ live)).
  - simpl in Hobj. unfold property_of in Hobj. split; [|split].
    + intros key Hkey. rewrite Hobj.
      apply Pairs_getAll_nil in Hkey. rewrite Hkey. by case_bool_decide.
    + intros key Hkey Harr. rewrite Hobj, bool_decide_eq_true_2 by done.
      destruct (Pairs.getAll key l) eqn:E; [|done].
      by apply Pairs_getAll_nil in E.
    + intros key Hkey Harr. rewrite Hobj, bool_decide_eq_false_2 by done.
      destruct (last (Pairs.getAll key l)) as [value|] eqn:E.
      * by exists value.
      * apply last_None in E. by apply Pairs_getAll_nil in E.
Qed.

Lemma searchParamsToObject_properties_witness :
  let l := [("tag", "x"); ("page", "1"); ("tag", "y"); ("page", "2")] in
  exists object,
    searchParamsToObject 0 ["tag"] (world_of [l])
    = (Returned object, world_of [l])
    /\ object !! "tag" = Some (OArray ["x"; "y"])
    /\ object !! "page" = Some (OString "2")
    /\ object !! "size" = None.
Proof.
  intros l.
  assert (Hkeys : forall key, key ∈ l.*1 -> key = "tag" \/ key = "page").
  { intros key Hin. simpl in Hin.
    repeat (apply elem_of_cons in Hin as [->|Hin]; [tauto|]).
    by apply not_elem_of_nil in Hin. }
  destruct (searchParamsToObject_properties (world_of [l]) 0%nat l ["tag"]
              eq_refl) as (object & Hrun & Hnone & Harr & Hlast).
  - intros [H|H]%Hkeys; discriminate H.
  - intros key _ ->%list_elem_of_singleton Hin.
    unfold Object_prototype_names in Hin.
    repeat (apply elem_of_cons in Hin as [Hin|Hin]; [discriminate Hin|]).
    by apply not_elem_of_nil in Hin.
  - exists object. split; [done|]. split; [|split].
    + apply Harr; apply list_elem_of_here.
    + destruct (Hlast "page") as (value & Hv & ->).
      * right. left.
      * intros H%list_elem_of_singleton. discriminate H.
      * by injection Hv as <-.
    + apply Hnone. intros [H|H]%Hkeys; discriminate H.
Defined.

Lemma searchParamsToObject_loop_raises keysToArray w key (l : entries)
    (object : gmap string ObjectValue) :
  key ∈ keysToArray -> key ∈ Object_prototype_names ->
  object !! key = None -> key ∈ l.*1 ->
  for_of_with l (searchParamsToObject_step keysToArray) object w
  = (Thrown (TypeError push_message), w).
Proof.
  intros Harr Hname. revert object.
  induction l as [|[k v] l IH]; intros object Hobj Hin.
  - by apply not_elem_of_nil in Hin.
  - simpl. unfold bind.
    destruct (decide (k = key)) as [->|Hk].
    + unfold searchParamsToObject_step.
      by rewrite bool_decide_eq_true_2, Hobj, bool_decide_eq_true_2.
    + assert (Hrest : key ∈ l.*1).
      { simpl in Hin. apply elem_of_cons in Hin as [?|?]; [congruence | done]. }
      unfold searchParamsToObject_step.
      destruct (bool_decide (k ∈ keysToArray)).
      * destruct (object !! k) as [[s|a]|] eqn:E; [done| |].
        -- unfold ret. apply IH; [|done]. by rewrite lookup_insert_ne.
        -- destruct (bool_decide (k ∈ Object_prototype_names)); [done|].
           unfold ret. apply IH; [|done]. by rewrite lookup_insert_ne.
      * destruct (bool_decide (k = "__proto__")); unfold ret.
        -- by apply IH.
        -- apply IH; [|done]. by rewrite lookup_insert_ne.
Qed.

(** X11: [searchParamsToObject] raises a [TypeError] as soon as the
    collection holds a pair whose key is an array key and is also a name
    every object inherits from [Object.prototype] (constructor, toString,
    __proto__ and the like): the inherited value is not [undefined], so no
    array is created, and it has no [push]. *)
Theorem searchParamsToObject_raises_on_inherited_name
    w params l keysToArray key :
  store w !! params = Some l ->
  key ∈ l.*1 -> key ∈ keysToArray -> key ∈ Object_prototype_names ->
  searchParamsToObject params keysToArray w
  = (Thrown (TypeError push_message), w).
Proof.
  intros live Hin Harr Hname. unfold searchParamsToObject, iterate.
  rewrite (bind_returned _ _ _ _ _ (read_live _ _ _ live)).
  by apply (searchParamsToObject_loop_raises keysToArray w key).
Qed.

Lemma searchParamsToObject_raises_on_inherited_name_witness :
  let w := world_of [[("page", "1"); ("constructor", "x")]] in
  searchParamsToObject 0 ["constructor"] w
  = (Thrown (TypeError push_message), w).
Proof.
  intros w.
  apply (searchParamsToObject_raises_on_inherited_name w 0%nat
           [("page", "1"); ("constructor", "x")] ["constructor"]
           "constructor" eq_refl).
  - right. left.
  - left.
  - left.
Defined.

Lemma searchParamsToObject_step_pure keysToArray pair object :
  exists r, forall w, searchParamsToObject_step keysToArray pair object w = (r, w).
Proof.
  unfold searchParamsToObject_step. destruct pair as [k v].
  destruct (bool_decide (k ∈ keysToArray)).
  - destruct (object !! k) as [[s|a]|]; [by eexists | by eexists |].
    destruct (bool_decide (k ∈ Object_prototype_names)); by eexists.
  - destruct (bool_decide (k = "__proto__")); by eexists.
Qed.

Lemma searchParamsToObject_loop_skips_proto keysToArray w w' (l : entries)
    (object : gmap string ObjectValue) :
  "__proto__" ∉ keysToArray ->
  (for_of_with l (searchParamsToObject_step keysToArray) object w).1
  = (for_of_with (Pairs.delete "__proto__" l)
       (searchParamsToObject_step keysToArray) object w').1.
Proof.
  intros Hproto. revert object.
  induction l as [|[k v] l IH]; intros object; [done|].
  unfold Pairs.delete in *. rewrite filter_cons.
  destruct (decide ((k, v).1 <> "__proto__")) as [Hk|Hk].
  - cbn [for_of_with]. unfold bind.
    destruct (searchParamsToObject_step_pure keysToArray (k, v) object)
      as [r Hr].
    rewrite !Hr. destruct r as [o|e]; [apply IH | done].
  - apply dec_stable in Hk. simpl in Hk. subst k.
    cbn [for_of_with]. unfold bind.
    assert (E : searchParamsToObject_step keysToArray ("__proto__", v) object w
                = (Returned object, w)).
    { unfold searchParamsToObject_step.
      rewrite bool_decide_eq_false_2 by done.
      by rewrite bool_decide_eq_true_2. }
    rewrite E. apply IH.
Qed.

(** X12: a pair named __proto__ never reaches the object when __proto__ is
    not an array key: the assignment of a string to that name changes
    nothing, so the conversion ends as it does on the collection without
    its __proto__ pairs. *)
Theorem searchParamsToObject_ignores_proto w params l w' params' keysToArray :
  store w !! params = Some l ->
  store w' !! params' = Some (Pairs.delete "__proto__" l) ->
  "__proto__" ∉ keysToArray ->
  (searchParamsToObject params keysToArray w).1
  = (searchParamsToObject params' keysToArray w').1.
Proof.
  intros live live' Hproto. unfold searchParamsToObject, iterate.
  rewrite (bind_returned _ _ _ _ _ (read_live _ _ _ live)).
  rewrite (bind_returned _ _ _ _ _ (read_live _ _ _ live')).
  by apply searchParamsToObject_loop_skips_proto.
Qed.

Lemma searchParamsToObject_ignores_proto_witness :
  (searchParamsToObject 0 [] (world_of [[("__proto__", "x"); ("a", "1")]])).1
  = (searchParamsToObject 0 [] (world_of [[("a", "1")]])).1.
Proof.
  apply (searchParamsToObject_ignores_proto
           (world_of [[("__proto__", "x"); ("a", "1")]]) 0%nat
           [("__proto__", "x"); ("a", "1")]
           (world_of [[("a", "1")]]) 0%nat [] eq_refl eq_refl).
  apply not_elem_of_nil.
Defined.

(** * Construction: what a mapping leaves under each key *)

Lemma getAll_set_same key value (l : entries) :
  Pairs.getAll key (Pairs.set key value l) = [value].
Proof.
  induction l as [|[k v] l IH]; simpl.
  - unfold Pairs.getAll. by rewrite filter_cons_True.
  - destruct (decide (k = key)) as [->|Hk].
    + unfold Pairs.getAll. rewrite filter_cons_True by done.
      rewrite fmap_cons. f_equal. apply getAll_delete.
    + unfold Pairs.getAll in *. by rewrite filter_cons_False.
Qed.

Lemma get_set_same key value (l : entries) :
  Pairs.get key (Pairs.set key value l) = Some value.
Proof. by rewrite Pairs_get_head, getAll_set_same. Qed.

Section Written.

Context (Date_toString : Date -> string).

Lemma getAll_create_turn_same key value (l : entries) :
  key ∉ l.*1 ->
  Pairs.getAll key (create_turn Date_toString (key, value) l)
  = written Date_toString value.
Proof.
  intros Hkey. apply Pairs_getAll_nil in Hkey.
  unfold create_turn, written. simpl.
  destruct value; simpl; try done;
    try (by apply getAll_set_same);
    by rewrite append_items_app, getAll_app, getAll_items, Hkey.
Qed.

Lemma keys_created_fresh params (acc : entries) key :
  key ∉ acc.*1 -> key ∉ params.*1 ->
  key ∉ (created Date_toString params acc).*1.
Proof.
  intros Hacc Hparams [Hin|(value & Hin & _)]%keys_created; [done|].
  apply Hparams, list_elem_of_fmap. by exists (key, value).
Qed.

(** With distinct keys, a key of the mapping gets exactly the texts of
    its value. *)
Lemma getAll_created params (acc : entries) key value :
  NoDup params.*1 ->
  (key, value) ∈ params ->
  key ∉ acc.*1 ->
  Pairs.getAll key (created Date_toString params acc)
  = written Date_toString value.
Proof.
  revert acc. induction params as [|[k v] params IH]; intros acc; simpl.
  - intros _ Hin. by apply not_elem_of_nil in Hin.
  - rewrite NoDup_cons. intros [Hk Hnd] Hin Hacc.
    apply elem_of_cons in Hin as [[= <- <-]|Hin].
    + fold (created Date_toString params
              (create_turn Date_toString (key, value) acc)).
      rewrite getAll_created_other by done.
      by apply getAll_create_turn_same.
    + assert (key <> k).
      { intros ->. apply Hk, list_elem_of_fmap. by exists (k, value). }
      apply IH; [done | done |].
      intros [Hin'|[-> _]]%keys_create_turn; done.
Qed.

Lemma getAll_created_absent params key :
  key ∉ params.*1 ->
  Pairs.getAll key (created Date_toString params []) = [].
Proof. intros Hkey. by rewrite getAll_created_other. Qed.

Lemma keys_created_in params key :
  key ∈ (created Date_toString params []).*1 -> key ∈ params.*1.
Proof.
  intros [Hin|(value & Hin & _)]%keys_created.
  - by apply not_elem_of_nil in Hin.
  - apply list_elem_of_fmap. by exists (key, value).
Qed.

End Written.

(** X13: round trip from a mapping to a plain object.  For a mapping with
    distinct keys, none of them __proto__ and no array key among the
    inherited names, building a collection and converting it returns an
    object that holds, for each entry of the mapping, the texts of its
    value: as an array under an array key (nothing when there is no
    text), and as the last text under another key; it holds nothing under
    a key the mapping does not have. *)
Theorem create_then_object_general Date_toString w params keysToArray :
  NoDup params.*1 ->
  "__proto__" ∉ params.*1 ->
  (forall key, key ∈ params.*1 -> key ∈ keysToArray ->
     key ∉ Object_prototype_names) ->
  exists object l',
    (let* built := createSearchParams Date_toString params in
     searchParamsToObject built keysToArray) w
    = (Returned object, allocated w l')
    /\ (forall key value, (key, value) ∈ params ->
          object !! key
          = if bool_decide (key ∈ keysToArray) then
              match written Date_toString value with
              | [] => None
              | a => Some (OArray a)
              end
            else OString <$> last (written Date_toString value))
    /\ (forall key, key ∉ params.*1 -> object !! key = None).
Proof.
  intros Hnd Hproto Hnames.
  set (l' := created Date_toString params []).
  destruct (searchParamsToObject_loop keysToArray (allocated w l') l' [] ∅)
    as (object & Hrun & Hobj).
  { intros key. unfold property_of. rewrite lookup_empty.
    by case_bool_decide. }
  { intros Hin. by apply Hproto, (keys_created_in Date_toString). }
  { intros key Hin. by apply Hnames, (keys_created_in Date_toString). }
  exists object, l'. split; [|split].
  - rewrite (bind_returned _ _ _ _ _ (createSearchParams_run _ w _)).
    unfold searchParamsToObject, iterate.
    by rewrite (bind_returned _ _ _ _ _
                  (read_live _ _ _ (allocated_new w _))).
  - intros key value Hin. rewrite Hobj. simpl. unfold property_of, l'.
    by rewrite (getAll_created Date_toString params [] key value Hnd Hin)
      by apply not_elem_of_nil.
  - intros key Hkey. rewrite Hobj. simpl. unfold property_of, l'.
    rewrite getAll_created_absent by done. by case_bool_decide.
Qed.

Lemma create_then_object_general_witness :
  exists object l',
    (let* built :=
       createSearchParams (fun _ => "")
         [("q", VString "tea"); ("tag", VBooleans [true; false]);
          ("none", VUndefined)] in
     searchParamsToObject built ["tag"]) (world_of [])
    = (Returned object, allocated (world_of []) l')
    /\ object !! "q" = Some (OString "tea")
    /\ object !! "tag" = Some (OArray ["true"; "false"])
    /\ object !! "none" = None.
Proof.
  set (params := [("q", VString "tea"); ("tag", VBooleans [true; false]);
                  ("none", VUndefined)]).
  assert (Hkeys : forall key, key ∈ params.*1 ->
                    key = "q" \/ key = "tag" \/ key = "none").
  { intros key Hin. simpl in Hin.
    repeat (apply elem_of_cons in Hin as [->|Hin]; [tauto|]).
    by apply not_elem_of_nil in Hin. }
  destruct (create_then_object_general (fun _ => "") (world_of []) params
              ["tag"]) as (object & l' & Hrun & Hobj & _).
  - simpl. repeat (apply NoDup_cons; split;
      [intros Hin; repeat (apply elem_of_cons in Hin as [Hin|Hin];
                           [discriminate Hin|]);
       by apply not_elem_of_nil in Hin|]).
    apply NoDup_nil_2.
  - intros [H|[H|H]]%Hkeys; discriminate H.
  - intros key _ ->%list_elem_of_singleton Hin.
    unfold Object_prototype_names in Hin.
    repeat (apply elem_of_cons in Hin as [Hin|Hin]; [discriminate Hin|]).
    by apply not_elem_of_nil in Hin.
  - exists object, l'. split; [done|]. split; [|split].
    + rewrite (Hobj "q" (VString "tea")); [done | left].
    + rewrite (Hobj "tag" (VBooleans [true; false])); [done | right; left].
    + rewrite (Hobj "none" VUndefined); [done | right; right; left].
Defined.

(** * Typed round trips through a built collection *)



(** X14: scalars written by [createSearchParams] are read back by the
    extractor of their type.  For a mapping with distinct keys, a string
    that is not empty is read back by [getString] and a boolean by
    [getBoolean], nothing being printed; the empty string and [undefined]
    are both read back as absent. *)
Theorem create_then_get_scalar Date_toString w params key :
  NoDup params.*1 ->
  exists l',
    createSearchParams Date_toString params w
    = (Returned (length (store w)), allocated w l')
    /\ (forall s, (key, VString s) ∈ params -> s <> "" ->
          getString (length (store w)) key (allocated w l')
          = (Returned (Some s), allocated w l'))
    /\ (forall b, (key, VBoolean b) ∈ params ->
          getBoolean (length (store w)) key (allocated w l')
          = (Returned (Some b), allocated w l'))
    /\ ((key, VString "") ∈ params \/ (key, VUndefined) ∈ params ->
          getString (length (store w)) key (allocated w l')
          = (Returned None, allocated w l')).
Proof.
  intros Hnd. eexists. split; [apply createSearchParams_run|].
  fold (created Date_toString params []).
  set (l' := created Date_toString params []).
  pose proof (allocated_new w l') as live.
  assert (Hget : forall value, (key, value) ∈ params ->
            Pairs.get key l' = head (written Date_toString value)).
  { intros value Hin. unfold l'.
    by rewrite Pairs_get_head,
      (getAll_created Date_toString params [] key value Hnd Hin)
      by apply not_elem_of_nil. }
  split; [|split].
  - intros s Hin Hs. apply (getString_value _ _ _ live); [|done].
    by rewrite (Hget _ Hin).
  - intros b Hin.
    rewrite (getBoolean_value _ _ _ live key (Boolean_toString b));
      [by destruct b | by rewrite (Hget _ Hin) | by destruct b].
  - intros [Hin|Hin]; apply (getString_empty _ _ _ _ live);
      rewrite (Hget _ Hin); [by right | by left].
Qed.

Lemma create_then_get_scalar_witness :
  exists l',
    createSearchParams (fun _ => "")
      [("q", VString "tea"); ("on", VBoolean true)] (world_of [])
    = (Returned 0%nat, allocated (world_of []) l')
    /\ getBoolean 0 "on" (allocated (world_of []) l')
       = (Returned (Some true), allocated (world_of []) l').
Proof.
  destruct (create_then_get_scalar (fun _ => "") (world_of [])
              [("q", VString "tea"); ("on", VBoolean true)] "on")
    as (l' & Hrun & _ & Hbool & _).
  - simpl. repeat (apply NoDup_cons; split;
      [intros Hin; repeat (apply elem_of_cons in Hin as [Hin|Hin];
                           [discriminate Hin|]);
       by apply not_elem_of_nil in Hin|]).
    apply NoDup_nil_2.
  - exists l'. split; [done|]. apply Hbool. right. left.
Defined.




(** * Merging a mapping *)

Lemma set_absent key value (l : entries) :
  key ∉ l.*1 -> Pairs.set key value l = l ++ [(key, value)].
Proof.
  induction l as [|[k v] l IH]; intros Hkey; [done|]. simpl in *.
  apply not_elem_of_cons in Hkey as [Hk Hrest].
  rewrite decide_False by congruence. by rewrite IH.
Qed.

Lemma set_first key value s (before after : entries) :
  key ∉ before.*1 ->
  Pairs.set key value (before ++ (key, s) :: after)
  = before ++ (key, value) :: Pairs.delete key after.
Proof.
  induction before as [|[k v] before IH]; intros Hkey; simpl.
  - by rewrite decide_True.
  - simpl in Hkey. apply not_elem_of_cons in Hkey as [Hk Hrest].
    rewrite decide_False by congruence. by rewrite IH.
Qed.

(** X16: adding a scalar under a key sets it.  The new collection holds
    exactly one pair of that key, with the text of the scalar: in the
    place of the first earlier pair of the key, the later ones being
    removed, or at the end when the key did not occur.  The values of
    every other key stay as they were. *)
Theorem addSearchParams_sets_scalar Date_toString w params l key value :
  store w !! params = Some l ->
  value <> VUndefined ->
  Array_isArray value = false ->
  exists l',
    addSearchParams Date_toString params [(key, value)] w
    = (Returned (length (store w)), allocated w l')
    /\ Pairs.getAll key l' = [value_toString Date_toString value]
    /\ (forall k, k <> key -> Pairs.getAll k l' = Pairs.getAll k l)
    /\ (key ∉ l.*1 ->
        l' = l ++ [(key, value_toString Date_toString value)])
    /\ (forall before s after,
          l = before ++ (key, s) :: after -> key ∉ before.*1 ->
          l' = before ++ (key, value_toString Date_toString value)
                 :: Pairs.delete key after).
Proof.
  intros live Hdef Harr.
  exists (Pairs.set key (value_toString Date_toString value) l).
  split.
  - rewrite (addSearchParams_run _ _ _ _ live). simpl.
    unfold add_turn. simpl. rewrite Harr. by destruct value.
  - split; [apply getAll_set_same|].
    split; [intros k Hk; by apply getAll_set_other|].
    split; [apply set_absent|].
    intros before s after -> Hkey. by apply set_first.
Qed.

Lemma addSearchParams_sets_scalar_witness :
  let w := world_of [[("page", "1"); ("q", "tea"); ("page", "9")]] in
  exists l',
    addSearchParams (fun _ => "") 0 [("page", VNumber (int_number 2))] w
    = (Returned 1%nat, allocated w l')
    /\ l' = [("page", "2"); ("q", "tea")].
Proof.
  intros w.
  destruct (addSearchParams_sets_scalar (fun _ => "") w 0%nat
              [("page", "1"); ("q", "tea"); ("page", "9")] "page"
              (VNumber (int_number 2)) eq_refl)
    as (l' & Hrun & _ & _ & _ & Hfirst); [discriminate | reflexivity |].
  exists l'. split; [done|].
  apply (Hfirst [] "1" [("q", "tea"); ("page", "9")] eq_refl).
  apply not_elem_of_nil.
Defined.

Section Added.

Context (Date_toString : Date -> string).

Lemma getAll_add_turn_other key value k (l : entries) :
  k <> key \/ value = VUndefined ->
  Pairs.getAll k (add_turn Date_toString (key, value) l) = Pairs.getAll k l.
Proof.
  intros [Hk | ->]; [|done].
  destruct (Array_isArray value) eqn:Harr.
  - rewrite add_turn_sequence by done.
    by rewrite getAll_app, getAll_items_other, app_nil_r,
      getAll_delete_other.
  - unfold add_turn. simpl. rewrite Harr.
    destruct value; try done; by apply getAll_set_other.
Qed.

Lemma getAll_add_turn_same key value (l : entries) :
  value <> VUndefined ->
  Pairs.getAll key (add_turn Date_toString (key, value) l)
  = written Date_toString value.
Proof.
  intros Hdef. destruct (Array_isArray value) eqn:Harr.
  - rewrite add_turn_sequence by done.
    rewrite getAll_app, getAll_delete, getAll_items.
    unfold written. rewrite Harr. by destruct value.
  - unfold add_turn, written. simpl. rewrite Harr.
    destruct value; try done; by apply getAll_set_same.
Qed.

Lemma getAll_added_other paramsToAdd (l : entries) key :
  (forall value, (key, value) ∈ paramsToAdd -> value = VUndefined) ->
  Pairs.getAll key (added_to Date_toString l paramsToAdd) = Pairs.getAll key l.
Proof.
  revert l. induction paramsToAdd as [|[k v] paramsToAdd IH];
    intros l Hundef; [done|].
  simpl. rewrite IH by (intros value Hin; apply Hundef; by right).
  apply getAll_add_turn_other.
  destruct (decide (key = k)) as [->|Hk]; [right | by left].
  apply Hundef. left.
Qed.

Lemma getAll_added_same paramsToAdd (l : entries) key value :
  NoDup paramsToAdd.*1 ->
  (key, value) ∈ paramsToAdd ->
  value <> VUndefined ->
  Pairs.getAll key (added_to Date_toString l paramsToAdd) = written Date_toString value.
Proof.
  revert l. induction paramsToAdd as [|[k v] paramsToAdd IH];
    intros l; simpl.
  - intros _ Hin. by apply not_elem_of_nil in Hin.
  - rewrite NoDup_cons. intros [Hk Hnd] Hin Hdef.
    apply elem_of_cons in Hin as [[= <- <-]|Hin].
    + fold (added_to Date_toString (add_turn Date_toString (key, value) l)
             paramsToAdd).
      rewrite getAll_added_other; [by apply getAll_add_turn_same|].
      intros v' Hin. exfalso. apply Hk, list_elem_of_fmap.
      by exists (key, v').
    + by apply IH.
Qed.

End Added.

(** X17: merging a whole mapping.  For a mapping with distinct keys,
    every key the mapping gives a value other than [undefined] ends with
    exactly the texts of that value, whatever it held before, and every
    key the mapping does not have, or maps to [undefined], keeps its
    values as they were. *)
Theorem addSearchParams_replaces_and_frames
    Date_toString w params l paramsToAdd :
  store w !! params = Some l ->
  NoDup paramsToAdd.*1 ->
  exists l',
    addSearchParams Date_toString params paramsToAdd w
    = (Returned (length (store w)), allocated w l')
    /\ (forall key value, (key, value) ∈ paramsToAdd ->
          value <> VUndefined ->
          Pairs.getAll key l' = written Date_toString value)
    /\ (forall key,
          (forall value, (key, value) ∈ paramsToAdd -> value = VUndefined) ->
          Pairs.getAll key l' = Pairs.getAll key l).
Proof.
  intros live Hnd. eexists. split; [by apply addSearchParams_run|].
  fold (added_to Date_toString l paramsToAdd). split.
  - intros key value Hin Hdef. by apply getAll_added_same.
  - intros key Hundef. by apply getAll_added_other.
Qed.

Lemma addSearchParams_replaces_and_frames_witness :
  let w := world_of [[("tag", "old"); ("q", "tea"); ("page", "1")]] in
  exists l',
    addSearchParams (fun _ => "") 0
      [("tag", VStrings ["x"; "y"]); ("page", VUndefined)] w
    = (Returned 1%nat, allocated w l')
    /\ Pairs.getAll "tag" l' = ["x"; "y"]
    /\ Pairs.getAll "page" l' = ["1"]
    /\ Pairs.getAll "q" l' = ["tea"].
Proof.
  intros w.
  set (mapping := [("tag", VStrings ["x"; "y"]); ("page", VUndefined)]).
  assert (Hin : forall key value, (key, value) ∈ mapping ->
            (key, value) = ("tag", VStrings ["x"; "y"])
            \/ (key, value) = ("page", VUndefined)).
  { intros key value H.
    repeat (apply elem_of_cons in H as [->|H]; [tauto|]).
    by apply not_elem_of_nil in H. }
  destruct (addSearchParams_replaces_and_frames (fun _ => "") w 0%nat
              [("tag", "old"); ("q", "tea"); ("page", "1")] mapping eq_refl)
    as (l' & Hrun & Hnew & Hold).
  - simpl. repeat (apply NoDup_cons; split;
      [intros H; repeat (apply elem_of_cons in H as [H|H];
                         [discriminate H|]);
       by apply not_elem_of_nil in H|]).
    apply NoDup_nil_2.
  - exists l'. split; [done|]. split; [|split].
    + apply (Hnew "tag" (VStrings ["x"; "y"])); [left | discriminate].
    + apply Hold. intros value [H|H]%Hin; by injection H.
    + apply Hold. intros value [H|H]%Hin; discriminate H.
Defined.

Lemma add_turn_absent_key Date_toString key value (l : entries) :
  key ∉ l.*1 ->
  add_turn Date_toString (key, value) l
  = create_turn Date_toString (key, value) l.
Proof.
  intros Hkey. unfold add_turn, create_turn. simpl.
  destruct (Array_isArray value); [|done].
  rewrite (delete_absent key l Hkey). by destruct (_ || _).
Qed.

Lemma added_to_created Date_toString params (acc : entries) :
  NoDup params.*1 ->
  (forall key, key ∈ params.*1 -> key ∉ acc.*1) ->
  added_to Date_toString acc params = created Date_toString params acc.
Proof.
  revert acc. induction params as [|[k v] params IH]; intros acc; [done|].
  simpl. rewrite NoDup_cons. intros [Hk Hnd] Hfresh.
  rewrite add_turn_absent_key by (apply Hfresh; left).
  apply IH; [done|].
  intros key Hin [Hacc|[-> _]]%keys_create_turn; [|done].
  apply (Hfresh key); [by right | done].
Qed.

(** X18: merging a mapping with distinct keys into an empty collection
    builds the same pairs, in the same order, as [createSearchParams]
    builds of the mapping. *)
Theorem addSearchParams_into_empty_is_create Date_toString w params :
  NoDup params.*1 ->
  exists l',
    createSearchParams Date_toString params w
    = (Returned (length (store w)), allocated w l')
    /\ (let* empty := new in
        addSearchParams Date_toString empty params) w
       = (Returned (S (length (store w))),
          allocated (allocated w []) l').
Proof.
  intros Hnd. exists (created Date_toString params []).
  split; [apply createSearchParams_run|].
  rewrite (bind_returned _ _ _ _ _ (new_run w)).
  rewrite (addSearchParams_run _ _ _ _ (allocated_new w [])).
  fold (added_to Date_toString [] params).
  rewrite added_to_created; [|done|intros key _; apply not_elem_of_nil].
  unfold allocated at 2. simpl. by rewrite length_app, Nat.add_1_r.
Qed.

Lemma addSearchParams_into_empty_is_create_witness :
  exists l',
    createSearchParams (fun _ => "")
      [("a", VBoolean true); ("b", VStrings ["x"; "y"])] (world_of [])
    = (Returned 0%nat, allocated (world_of []) l')
    /\ (let* empty := new in
        addSearchParams (fun _ => "") empty
          [("a", VBoolean true); ("b", VStrings ["x"; "y"])]) (world_of [])
       = (Returned 1%nat, allocated (allocated (world_of []) []) l').
Proof.
  apply (addSearchParams_into_empty_is_create (fun _ => "") (world_of [])
           [("a", VBoolean true); ("b", VStrings ["x"; "y"])]).
  simpl. repeat (apply NoDup_cons; split;
    [intros H; repeat (apply elem_of_cons in H as [H|H];
                       [discriminate H|]);
     by apply not_elem_of_nil in H|]).
  apply NoDup_nil_2.
Defined.

(** * Reading a transformed collection *)

Lemma getStringArray_absent w params l key :
  store w !! params = Some l ->
  key ∉ l.*1 ->
  getStringArray params key w = (Returned None, w).
Proof.
  intros live Hkey%Pairs_getAll_nil. unfold getStringArray.
  by rewrite (bind_returned _ _ _ _ _ (getAll_live _ _ _ live key)), Hkey.
Qed.

(** X19: a deleted key reads as absent, and so does a key that was not
    kept.  In the collection [deleteSearchParams] returns, [getString] and
    [getStringArray] return absent for each key to delete; in the one
    [filterSearchParams] returns, they return absent for each key that is
    not to keep.  For the other keys [getString] returns what it returns
    on the input. *)
Theorem removed_keys_read_absent w params l keys key :
  store w !! params = Some l ->
  exists rest kept,
    deleteSearchParams params keys w
    = (Returned (length (store w)), allocated w rest)
    /\ filterSearchParams params keys w
       = (Returned (length (store w)), allocated w kept)
    /\ (key ∈ keys ->
        getString (length (store w)) key (allocated w rest)
        = (Returned None, allocated w rest)
        /\ getStringArray (length (store w)) key (allocated w rest)
           = (Returned None, allocated w rest)
        /\ (getString (length (store w)) key (allocated w kept)).1
           = (getString params key w).1)
    /\ (key ∉ keys ->
        getString (length (store w)) key (allocated w kept)
        = (Returned None, allocated w kept)
        /\ getStringArray (length (store w)) key (allocated w kept)
           = (Returned None, allocated w kept)
        /\ (getString (length (store w)) key (allocated w rest)).1
           = (getString params key w).1).
Proof.
  intros live.
  exists (filter (fun e => e.1 ∉ keys) l), (filter (fun e => e.1 ∈ keys) l).
  split; [by apply deleteSearchParams_run|].
  split; [by apply filterSearchParams_run|].
  assert (Hread : forall l' : entries,
            Pairs.getAll key l' = Pairs.getAll key l ->
            (getString (length (store w)) key (allocated w l')).1
            = (getString params key w).1).
  { intros l' E. unfold getString.
    rewrite (bind_returned _ _ _ _ _
               (get_live _ _ _ (allocated_new w l') key)).
    rewrite (bind_returned _ _ _ _ _ (get_live _ _ _ live key)).
    rewrite !Pairs_get_head, E.
    by destruct (head (Pairs.getAll key l)) as [[|c s]|]. }
  split.
  - intros Hkey.
    assert (Hgone : key ∉ (filter (fun e => e.1 ∉ keys) l).*1).
    { rewrite (keys_filter _ (fun k => k ∉ keys)) by done. tauto. }
    split; [|split].
    + apply (getString_empty _ _ _ _ (allocated_new w _)).
      left. by apply Pairs_get_None.
    + by apply (getStringArray_absent _ _ _ _ (allocated_new w _)).
    + apply Hread. by apply (getAll_filter _ (fun k => k ∈ keys)).
  - intros Hkey.
    assert (Hgone : key ∉ (filter (fun e => e.1 ∈ keys) l).*1).
    { rewrite (keys_filter _ (fun k => k ∈ keys)) by done. tauto. }
    split; [|split].
    + apply (getString_empty _ _ _ _ (allocated_new w _)).
      left. by apply Pairs_get_None.
    + by apply (getStringArray_absent _ _ _ _ (allocated_new w _)).
    + apply Hread. by apply (getAll_filter _ (fun k => k ∉ keys)).
Qed.

Lemma removed_keys_read_absent_witness :
  let w := world_of [[("page", "3"); ("q", "tea")]] in
  exists rest,
    deleteSearchParams 0 ["page"] w = (Returned 1%nat, allocated w rest)
    /\ getString 1 "page" (allocated w rest)
       = (Returned None, allocated w rest).
Proof.
  intros w.
  destruct (removed_keys_read_absent w 0%nat [("page", "3"); ("q", "tea")]
              ["page"] "page" eq_refl)
    as (rest & kept & Hd & _ & Hin & _).
  exists rest. split; [done|]. apply Hin. left.
Defined.




(** * Integers through text and back *)

Lemma string_app_cons x (a b : string) :
  String x a +:+ b = String x (a +:+ b).
Proof. reflexivity. Qed.

Lemma string_app_assoc (a b c : string) : (a +:+ b) +:+ c = a +:+ (b +:+ c).
Proof.
  induction a as [|x a IH]; [done|]. by rewrite !string_app_cons, IH.
Qed.

Lemma string_app_nil_r (a : string) : a +:+ "" = a.
Proof. induction a as [|x a IH]; [done|]. by rewrite string_app_cons, IH. Qed.

Lemma string_length_app (a b : string) :
  String.length (a +:+ b) = (String.length a + String.length b)%nat.
Proof.
  induction a as [|x a IH]; [done|].
  rewrite string_app_cons. cbn [String.length]. by rewrite IH.
Qed.

Lemma string_rev_app_spec (s acc : string) :
  String.rev_app s acc = String.rev s +:+ acc.
Proof.
  revert acc. induction s as [|c s IH]; intros acc; [done|].
  unfold String.rev. cbn [String.rev_app].
  rewrite (IH (String c acc)), (IH (String c "")).
  by rewrite string_app_assoc.
Qed.

Lemma string_rev_cons c (s : string) :
  String.rev (String c s) = String.rev s +:+ String c "".
Proof. unfold String.rev at 1. cbn [String.rev_app]. apply string_rev_app_spec. Qed.

Lemma string_rev_app (a b : string) :
  String.rev (a +:+ b) = String.rev b +:+ String.rev a.
Proof.
  induction a as [|c a IH]; [by rewrite string_app_nil_r|].
  by rewrite string_app_cons, !string_rev_cons, IH, string_app_assoc.
Qed.

Lemma string_rev_involutive (s : string) : String.rev (String.rev s) = s.
Proof.
  induction s as [|c s IH]; [done|].
  by rewrite string_rev_cons, string_rev_app, IH.
Qed.

Lemma zeros_snoc n :
  NumberToString.zeros n +:+ "0" = String "0" (NumberToString.zeros n).
Proof.
  induction n as [|n IH]; [done|].
  cbn [NumberToString.zeros]. by rewrite string_app_cons, IH.
Qed.

Lemma rev_zeros n :
  String.rev (NumberToString.zeros n) = NumberToString.zeros n.
Proof.
  induction n as [|n IH]; [done|].
  cbn [NumberToString.zeros]. by rewrite string_rev_cons, IH, zeros_snoc.
Qed.

Lemma length_zeros n : String.length (NumberToString.zeros n) = n.
Proof. induction n as [|n IH]; [done|]. cbn. by rewrite IH. Qed.

Lemma drop_zeros_spec (s : string) :
  exists j, s = NumberToString.zeros j +:+ NumberToString.drop_zeros s.
Proof.
  induction s as [|c s [j IH]]; [by exists 0%nat|].
  destruct (decide (c = "0"%char)) as [->|Hc].
  - exists (S j). cbn [NumberToString.zeros NumberToString.drop_zeros].
    by rewrite string_app_cons, <- IH.
  - exists 0%nat.
    destruct c as [[] [] [] [] [] [] [] []]; try done.
Qed.

(** A text is what stripping its trailing zeros leaves, followed by
    zeros. *)
Lemma strip_trailing_zeros_spec (s : string) :
  exists j,
    s = NumberToString.strip_trailing_zeros s +:+ NumberToString.zeros j
    /\ String.length s
       = (String.length (NumberToString.strip_trailing_zeros s) + j)%nat.
Proof.
  unfold NumberToString.strip_trailing_zeros.
  destruct (drop_zeros_spec (String.rev s)) as [j Hj].
  exists j.
  assert (E : s = String.rev (NumberToString.drop_zeros (String.rev s))
                  +:+ NumberToString.zeros j).
  { rewrite <- (string_rev_involutive s) at 1.
    rewrite Hj at 1. by rewrite string_rev_app, rev_zeros. }
  split; [done|].
  rewrite E at 1. by rewrite string_length_app, length_zeros.
Qed.

(** The text of a positive integer that has at most 21 digits is its
    decimal numeral. *)
Lemma positive_integer_text (m : N) :
  (String.length (NumberToString.decimal m) <= 21)%nat ->
  NumberToString.positive m 0 = NumberToString.decimal m.
Proof.
  intros Hlen. unfold NumberToString.positive.
  destruct (strip_trailing_zeros_spec (NumberToString.decimal m))
    as (j & E & Hj).
  set (s := NumberToString.strip_trailing_zeros (NumberToString.decimal m))
    in *.
  rewrite Z.add_0_r.
  assert (Hk : (Z.of_nat (String.length s)
                <=? Z.of_nat (String.length (NumberToString.decimal m)))
               = true) by (apply Z.leb_le; lia).
  assert (Hn : (Z.of_nat (String.length (NumberToString.decimal m)) <=? 21)
               = true) by (apply Z.leb_le; lia).
  rewrite Hk, Hn. cbn [andb].
  replace (Z.to_nat (Z.of_nat (String.length (NumberToString.decimal m))
                     - Z.of_nat (String.length s))) with j by lia.
  by rewrite <- E.
Qed.

(** What follows a numeral: nothing, or a code unit that is not a decimal
    digit. *)
Lemma digits_prefix_numeral (d : Decimal.uint) (rest : string) :
  Lex.digits_prefix 10 rest = ([], rest) ->
  Lex.digits_prefix 10 (NilEmpty.string_of_uint d +:+ rest)
  = (uint_digits d, rest).
Proof.
  intros Hrest. induction d as [|d IH|d IH|d IH|d IH|d IH|d IH|d IH|d IH|d IH|d IH];
    [done|..];
    cbn [NilEmpty.string_of_uint uint_digits]; rewrite string_app_cons;
    cbn [Lex.digits_prefix]; by rewrite IH.
Qed.

Lemma digits_fold_of_lu (d d' : Decimal.uint) :
  fold_left (fun acc x => acc * 10 + x)%N (uint_digits d)
            (DecimalPos.Unsigned.of_lu d')
  = DecimalPos.Unsigned.of_lu (Decimal.revapp d d').
Proof.
  revert d'.
  induction d as [|d IH|d IH|d IH|d IH|d IH|d IH|d IH|d IH|d IH|d IH];
    intros d'; [done|..];
    cbn [uint_digits fold_left Decimal.revapp]; rewrite <- IH;
    f_equal; cbn [DecimalPos.Unsigned.of_lu]; lia.
Qed.

Lemma digits_value_numeral (d : Decimal.uint) :
  Lex.digits_value 10 (uint_digits d) = N.of_uint d.
Proof.
  unfold Lex.digits_value, N.of_uint.
  rewrite DecimalPos.Unsigned.of_uint_alt.
  apply (digits_fold_of_lu d Decimal.Nil).
Qed.

Lemma digits_value_lower (ds : list N) (acc : N) :
  (acc * 10 ^ N.of_nat (length ds)
   <= fold_left (fun acc x => acc * 10 + x) ds acc)%N.
Proof.
  revert acc. induction ds as [|x ds IH]; intros acc.
  - cbn. lia.
  - cbn [fold_left length]. etrans; [|apply IH].
    rewrite Nat2N.inj_succ, N.pow_succ_r'. nia.
Qed.

Lemma length_numeral (d : Decimal.uint) :
  String.length (NilEmpty.string_of_uint d) = length (uint_digits d).
Proof.
  induction d; [done|..]; cbn; by f_equal.
Qed.

(** The numeral of a number: it is not empty, and it starts with the digit
    zero for the number zero only. *)
Lemma numeral_of_N (m : N) :
  exists c r dg,
    NumberToString.decimal m = String c r
    /\ NumberToString.decimal m = NilEmpty.string_of_uint (N.to_uint m)
    /\ Lex.digit_value 10 c = Some dg
    /\ (dg = 0%N -> m = 0%N)
    /\ hd_error (uint_digits (N.to_uint m)) = Some dg.
Proof.
  unfold NumberToString.decimal.
  pose proof (DecimalN.Unsigned.of_to m) as Hm.
  pose proof (DecimalN.Unsigned.to_of (N.to_uint m)) as Hnorm.
  rewrite Hm in Hnorm.
  destruct (N.to_uint m) as [|d|d|d|d|d|d|d|d|d|d] eqn:E;
    try (eexists _, _, _; repeat split; first [reflexivity | discriminate]).
  eexists _, _, _. repeat split; try reflexivity.
  intros _. rewrite DecimalFacts.unorm_D0 in Hnorm.
  unfold Decimal.unorm in Hnorm.
  destruct (Decimal.nzhead d) eqn:Ed; try discriminate Hnorm.
  - injection Hnorm as ->. by rewrite <- Hm.
  - by apply DecimalFacts.nzhead_nonzero in Ed.
Qed.

Lemma length_decimal_bound (m : N) :
  (m < 10 ^ 21)%N -> (String.length (NumberToString.decimal m) <= 21)%nat.
Proof.
  intros Hm.
  destruct (decide (m = 0%N)) as [->|Hpos]; [cbn; lia|].
  destruct (numeral_of_N m) as (c & r & dg & _ & E & _ & Hzero & Hhd).
  rewrite E, length_numeral.
  pose proof (digits_value_numeral (N.to_uint m)) as Hval.
  rewrite DecimalN.Unsigned.of_to in Hval.
  destruct (uint_digits (N.to_uint m)) as [|x ds]; [cbn; lia|].
  injection Hhd as ->.
  assert (dg <> 0%N) as Hdg by (intros H0; by apply Hpos, Hzero).
  unfold Lex.digits_value in Hval. cbn [fold_left] in Hval.
  pose proof (digits_value_lower ds (0 * 10 + dg)%N) as Hlow.
  rewrite Hval in Hlow.
  destruct (le_gt_dec (length (dg :: ds)) 21) as [?|Hlen]; [done|].
  exfalso. cbn [length] in Hlen.
  assert (10 ^ 21 <= 10 ^ N.of_nat (length ds))%N
    by (apply N.pow_le_mono_r; lia).
  nia.
Qed.

Lemma parseInt_after_sign (neg : bool) c (r : string) dg :
  Lex.digit_value 10 c = Some dg -> dg <> 0%N ->
  parseInt ((if neg then "-" else "") +:+ String c r)
  = let '(ds, _) := Lex.digits_prefix 10 (String c r) in
    match ds with
    | [] => NaN
    | _ :: _ => Decimal neg (Lex.digits_value 10 ds) 0
    end.
Proof.
  intros Hc Hdg.
  destruct c as [[] [] [] [] [] [] [] []]; try discriminate Hc;
    injection Hc as <-; try done; by destruct neg.
Qed.

Lemma parseInt_numeral (neg : bool) c (r : string) dg ds rest :
  Lex.digit_value 10 c = Some dg -> dg <> 0%N ->
  Lex.digits_prefix 10 r = (ds, rest) ->
  parseInt ((if neg then "-" else "") +:+ String c r)
  = Decimal neg (Lex.digits_value 10 (dg :: ds)) 0.
Proof.
  intros Hc Hdg Hr. rewrite (parseInt_after_sign neg c r dg Hc Hdg).
  cbn [Lex.digits_prefix]. by rewrite Hc, Hr.
Qed.

(** Reading the text of an integer gives the integer back, as long as the
    text is a plain numeral, that is below ten to the power 21. *)
Lemma parseInt_Number_toString (z : Z) :
  Z.abs z < 10 ^ 21 ->
  parseInt (Number_toString (int_number z)) = int_number z.
Proof.
  intros Hz. unfold int_number, Number_toString.
  destruct (N.eqb_spec (Z.abs_N z) 0) as [E|Hpos].
  - rewrite E. assert (z = 0) as -> by lia. reflexivity.
  - assert (Hlen : (String.length (NumberToString.decimal (Z.abs_N z)) <= 21)%nat).
    { apply length_decimal_bound. lia. }
    rewrite (positive_integer_text _ Hlen).
    destruct (numeral_of_N (Z.abs_N z))
      as (c & r & dg & Hcr & Hnum & Hc & Hzero & Hhd).
    pose proof (digits_prefix_numeral (N.to_uint (Z.abs_N z)) "" eq_refl)
      as Hprefix.
    rewrite string_app_nil_r, <- Hnum, Hcr in Hprefix.
    cbn [Lex.digits_prefix] in Hprefix. rewrite Hc in Hprefix.
    destruct (Lex.digits_prefix 10 r) as [ds rest] eqn:Hr.
    injection Hprefix as Hds Hrest.
    rewrite Hcr.
    rewrite (parseInt_numeral (z <? 0) c r dg ds rest Hc); [|auto|done].
    rewrite Hds, digits_value_numeral, DecimalN.Unsigned.of_to. done.
Qed.

Lemma parseFloat_after_sign (neg : bool) c (r : string) dg :
  Lex.digit_value 10 c = Some dg ->
  parseFloat ((if neg then "-" else "") +:+ String c r)
  = let '(ip, s) := Lex.digits_prefix 10 (String c r) in
    let '(fp, s) :=
      match s with
      | String "." r =>
          let '(fp, r') := Lex.digits_prefix 10 r in
          match ip, fp with
          | [], [] => ([], s)
          | _, _ => (fp, r')
          end
      | _ => ([], s)
      end in
    match ip ++ fp with
    | [] => NaN
    | (_ :: _) as ds =>
        Decimal neg (Lex.digits_value 10 ds)
                (exponent_part s - Z.of_nat (length fp))
    end.
Proof.
  intros Hc.
  destruct c as [[] [] [] [] [] [] [] []]; try discriminate Hc;
    by destruct neg.
Qed.

Lemma parseFloat_Number_toString (z : Z) :
  Z.abs z < 10 ^ 21 ->
  parseFloat (Number_toString (int_number z)) = int_number z.
Proof.
  intros Hz. unfold int_number, Number_toString.
  destruct (N.eqb_spec (Z.abs_N z) 0) as [E|Hpos].
  - rewrite E. assert (z = 0) as -> by lia. reflexivity.
  - assert (Hlen : (String.length (NumberToString.decimal (Z.abs_N z)) <= 21)%nat).
    { apply length_decimal_bound. lia. }
    rewrite (positive_integer_text _ Hlen).
    destruct (numeral_of_N (Z.abs_N z))
      as (c & r & dg & Hcr & Hnum & Hc & Hzero & Hhd).
    pose proof (digits_prefix_numeral (N.to_uint (Z.abs_N z)) "" eq_refl)
      as Hprefix.
    rewrite string_app_nil_r, <- Hnum, Hcr in Hprefix.
    rewrite Hcr, (parseFloat_after_sign (z <? 0) c r dg Hc), Hprefix.
    rewrite app_nil_r.
    destruct (uint_digits (N.to_uint (Z.abs_N z))) as [|x ds] eqn:Eds;
      [discriminate Hhd|].
    rewrite <- Eds, digits_value_numeral, DecimalN.Unsigned.of_to. done.
Qed.

Lemma Number_toString_integer_nonempty (z : Z) :
  Z.abs z < 10 ^ 21 -> Number_toString (int_number z) <> "".
Proof.
  intros Hz E. pose proof (parseInt_Number_toString z Hz) as H.
  rewrite E in H. discriminate H.
Qed.

(** X21: safe integers survive the trip through a collection.  For a
    mapping with distinct keys, an integer of magnitude at most
    [Number.MAX_SAFE_INTEGER] written by [createSearchParams] is read back
    by [getInt] and by [getFloat] as the same number, and a sequence of
    such integers that is not empty is read back by [getIntArray] as the
    same sequence; nothing is printed. *)
Theorem create_then_get_integer Date_toString w params key :
  NoDup params.*1 ->
  exists l',
    createSearchParams Date_toString params w
    = (Returned (length (store w)), allocated w l')
    /\ (forall z, (key, VNumber (int_number z)) ∈ params ->
          Z.abs z <= MAX_SAFE_INTEGER ->
          getInt (length (store w)) key (allocated w l')
          = (Returned (Some (int_number z)), allocated w l')
          /\ getFloat (length (store w)) key (allocated w l')
             = (Returned (Some (int_number z)), allocated w l'))
    /\ (forall zs, (key, VNumbers (int_number <$> zs)) ∈ params ->
          zs <> [] ->
          (forall z, z ∈ zs -> Z.abs z <= MAX_SAFE_INTEGER) ->
          getIntArray (length (store w)) key (allocated w l')
          = (Returned (Some (int_number <$> zs)), allocated w l')).
Proof.
  intros Hnd. eexists. split; [apply createSearchParams_run|].
  fold (created Date_toString params []).
  set (l' := created Date_toString params []).
  pose proof (allocated_new w l') as live.
  assert (Hall : forall value, (key, value) ∈ params ->
            Pairs.getAll key l' = written Date_toString value).
  { intros value Hin. unfold l'.
    by rewrite (getAll_created Date_toString params [] key value Hnd Hin)
      by apply not_elem_of_nil. }
  assert (Hsafe : forall z, Z.abs z <= MAX_SAFE_INTEGER -> Z.abs z < 10 ^ 21).
  { intros z. unfold MAX_SAFE_INTEGER. lia. }
  split.
  - intros z Hin Hz%Hsafe.
    assert (Hget : Pairs.get key l' = Some (Number_toString (int_number z)))
      by (by rewrite Pairs_get_head, (Hall _ Hin)).
    pose proof (Number_toString_integer_nonempty z Hz) as Hne.
    split.
    + rewrite (getInt_value _ _ _ live _ _ Hget Hne).
      by rewrite parseInt_Number_toString.
    + rewrite (getFloat_value _ _ _ live _ _ Hget Hne).
      by rewrite parseFloat_Number_toString.
  - intros zs Hin Hzs Hbound.
    rewrite (getIntArray_values _ _ _ live);
      rewrite (Hall _ Hin); [|by destruct zs].
    simpl. do 3 f_equal.
    rewrite <- !list_fmap_compose. apply list_fmap_ext.
    intros i z Hz. simpl. apply parseInt_Number_toString, Hsafe, Hbound.
    by eapply list_elem_of_lookup_2.
Qed.

Lemma create_then_get_integer_witness :
  exists l',
    createSearchParams (fun _ => "")
      [("page", VNumber (int_number (-42)))] (world_of [])
    = (Returned 0%nat, allocated (world_of []) l')
    /\ getInt 0 "page" (allocated (world_of []) l')
       = (Returned (Some (int_number (-42))), allocated (world_of []) l').
Proof.
  destruct (create_then_get_integer (fun _ => "") (world_of [])
              [("page", VNumber (int_number (-42)))] "page")
    as (l' & Hrun & Hint & _).
  - simpl. apply NoDup_cons. split; [apply not_elem_of_nil | apply NoDup_nil_2].
  - exists l'. split; [done|].
    apply (Hint (-42)); [left | unfold MAX_SAFE_INTEGER; lia].
Defined.

(** X22: [getInt] reads the numeral a value starts with and ignores what
    follows it.  When the first value of a key is the decimal numeral of a
    positive integer that is at most [Number.MAX_SAFE_INTEGER], followed
    by any text that does not go on with a decimal digit, [getInt] returns
    that integer, and prints nothing. *)
Theorem getInt_ignores_trailing_text w params l key (m : N) (rest : string) :
  store w !! params = Some l ->
  Pairs.get key l = Some (NumberToString.decimal m +:+ rest) ->
  m <> 0%N ->
  Z.of_N m <= MAX_SAFE_INTEGER ->
  Lex.digits_prefix 10 rest = ([], rest) ->
  getInt params key w = (Returned (Some (Decimal false m 0)), w).
Proof.
  intros live Hget Hm _ Hrest.
  destruct (numeral_of_N m) as (c & r & dg & Hcr & Hnum & Hc & Hzero & Hhd).
  pose proof (digits_prefix_numeral (N.to_uint m) rest Hrest) as Hprefix.
  rewrite <- Hnum, Hcr, string_app_cons in Hprefix.
  cbn [Lex.digits_prefix] in Hprefix. rewrite Hc in Hprefix.
  destruct (Lex.digits_prefix 10 (r +:+ rest)) as [ds rest'] eqn:Hr.
  injection Hprefix as Hds Hrest'.
  rewrite Hcr, string_app_cons in Hget.
  rewrite (getInt_value _ _ _ live _ _ Hget) by done.
  pose proof (parseInt_numeral false c (r +:+ rest) dg ds rest' Hc) as Hparse.
  change ((if false then "-" else "") +:+ String c (r +:+ rest))
    with (String c (r +:+ rest)) in Hparse.
  rewrite Hparse; [|auto|done].
  by rewrite Hds, digits_value_numeral, DecimalN.Unsigned.of_to.
Qed.

Lemma getInt_ignores_trailing_text_witness :
  let w := world_of [[("pageSize", "12abc")]] in
  getInt 0 "pageSize" w = (Returned (Some (Decimal false 12 0)), w).
Proof.
  intros w.
  apply (getInt_ignores_trailing_text w 0%nat [("pageSize", "12abc")]
           "pageSize" 12%N "abc" eq_refl eq_refl);
    [discriminate | unfold MAX_SAFE_INTEGER; lia | reflexivity].
Defined.

(** * Splitting a collection, and undoing a merge *)

(** X23: deleting a set of keys and keeping the same set of keys split the
    input: every pair of the input is in exactly one of the two new
    collections, so together they hold the pairs of the input, each as
    many times, and their sizes add up to the size of the input. *)
Theorem delete_and_filter_split w params l keys :
  store w !! params = Some l ->
  exists rest kept,
    deleteSearchParams params keys w
    = (Returned (length (store w)), allocated w rest)
    /\ filterSearchParams params keys w
       = (Returned (length (store w)), allocated w kept)
    /\ kept ++ rest ≡ₚ l
    /\ (length kept + length rest = length l)%nat
    /\ (forall e, e ∈ l -> (e ∈ kept /\ e ∉ rest) \/ (e ∈ rest /\ e ∉ kept)).
Proof.
  intros live.
  exists (filter (fun e => e.1 ∉ keys) l), (filter (fun e => e.1 ∈ keys) l).
  split; [by apply deleteSearchParams_run|].
  split; [by apply filterSearchParams_run|].
  pose proof (filter_app_complement (fun e : string * string => e.1 ∈ keys) l)
    as Hperm.
  split; [done|].
  split; [by rewrite <- length_app, Hperm|].
  intros e He. rewrite !list_elem_of_filter.
  destruct (decide (e.1 ∈ keys)); tauto.
Qed.

Lemma delete_and_filter_split_witness :
  let l := [("page", "1"); ("q", "tea"); ("page", "2")] in
  exists rest kept,
    deleteSearchParams 0 ["page"] (world_of [l])
    = (Returned 1%nat, allocated (world_of [l]) rest)
    /\ filterSearchParams 0 ["page"] (world_of [l])
       = (Returned 1%nat, allocated (world_of [l]) kept)
    /\ kept ++ rest ≡ₚ l.
Proof.
  intros l.
  destruct (delete_and_filter_split (world_of [l]) 0%nat l ["page"] eq_refl)
    as (rest & kept & Hd & Hf & Hperm & _).
  exists rest, kept. repeat split; assumption.
Defined.

Lemma filter_set (P : string * string -> Prop) `{!forall e, Decision (P e)}
    key value (l : entries) :
  (forall e, P e -> e.1 <> key) ->
  filter P (Pairs.set key value l) = filter P l.
Proof.
  intros HP. induction l as [|[k v] l IH]; simpl.
  - rewrite filter_cons_False; [done|]. intros HPe. by apply (HP _ HPe).
  - destruct (decide (k = key)) as [->|Hk].
    + rewrite !filter_cons_False by (intros HPe; by apply (HP _ HPe)).
      unfold Pairs.delete. rewrite list_filter_filter.
      apply list_filter_iff. intros e. split; [tauto|].
      intros HPe. split; [done | by apply HP].
    + rewrite !filter_cons. by rewrite IH.
Qed.

Lemma filter_add_turn Date_toString (P : string * string -> Prop)
    `{!forall e, Decision (P e)} key value (l : entries) :
  (forall e, P e -> e.1 <> key) ->
  filter P (add_turn Date_toString (key, value) l) = filter P l.
Proof.
  intros HP. destruct (Array_isArray value) eqn:Harr.
  - rewrite add_turn_sequence by done. rewrite filter_app.
    assert (E : filter P ((fun item => (key, item))
                            <$> items_toString Date_toString value) = []).
    { induction (items_toString Date_toString value) as [|item items IH];
        [done|].
      rewrite fmap_cons, filter_cons_False; [done|].
      intros HPe. by apply (HP _ HPe). }
    rewrite E, app_nil_r. unfold Pairs.delete. rewrite list_filter_filter.
    apply list_filter_iff. intros e. split; [tauto|].
    intros HPe. split; [done | by apply HP].
  - unfold add_turn. simpl. rewrite Harr.
    destruct value; try done; by apply filter_set.
Qed.

Lemma filter_added_to Date_toString (keys : list string)
    (mapping : list (string * ParamValue)) (acc : entries) :
  (forall k, k ∈ mapping.*1 -> k ∈ keys) ->
  filter (fun e => e.1 ∉ keys) (added_to Date_toString acc mapping)
  = filter (fun e => e.1 ∉ keys) acc.
Proof.
  revert acc. induction mapping as [|[k v] mapping IH]; intros acc Hsub;
    [done|].
  simpl. rewrite IH by (intros k' Hk'; apply Hsub; by right).
  apply filter_add_turn. intros e He Heq. apply He. rewrite Heq.
  apply Hsub. left.
Qed.

(** X24: deleting the keys of a mapping undoes merging it.  Merging any
    mapping into a collection and then deleting all the keys of the
    mapping leaves the pairs that deleting those keys from the input
    leaves, in the same order. *)
Theorem add_then_delete_undoes Date_toString w params l paramsToAdd :
  store w !! params = Some l ->
  exists merged rest,
    (let* added := addSearchParams Date_toString params paramsToAdd in
     deleteSearchParams added paramsToAdd.*1) w
    = (Returned (S (length (store w))), allocated (allocated w merged) rest)
    /\ deleteSearchParams params paramsToAdd.*1 w
       = (Returned (length (store w)), allocated w rest).
Proof.
  intros live.
  exists (added_to Date_toString l paramsToAdd),
         (filter (fun e => e.1 ∉ paramsToAdd.*1) l).
  split; [|by apply deleteSearchParams_run].
  rewrite (bind_returned _ _ _ _ _ (addSearchParams_run _ _ _ _ live _)).
  rewrite (deleteSearchParams_run _ _ _ (allocated_new w _)).
  unfold allocated at 1. simpl. rewrite length_app, Nat.add_1_r.
  do 2 f_equal. by apply (filter_added_to Date_toString).
Qed.

Lemma add_then_delete_undoes_witness :
  let w := world_of [[("page", "1"); ("q", "tea")]] in
  exists merged rest,
    (let* added :=
       addSearchParams (fun _ => "") 0
         [("page", VNumber (int_number 2)); ("tag", VStrings ["x"])] in
     deleteSearchParams added ["page"; "tag"]) w
    = (Returned 2%nat, allocated (allocated w merged) rest)
    /\ deleteSearchParams 0 ["page"; "tag"] w
       = (Returned 1%nat, allocated w rest).
Proof.
  intros w.
  apply (add_then_delete_undoes (fun _ => "") w 0%nat
           [("page", "1"); ("q", "tea")]
           [("page", VNumber (int_number 2)); ("tag", VStrings ["x"])]
           eq_refl).
Defined.

(** * Round trip of construction and conversion *)



